(** * insweb-file-server: upload identity and storage safety

    A shallow embedding of [src/server.js] (and of its two older variants)
    together with the properties of the upload-identity and storage-safety
    core: the identifier generator, the file-name sanitiser, the upload
    filter and the delete route.

    Conventions of the embedding.
    - A JavaScript string is a [string]; one [ascii] stands for one code
      unit.  Every function below treats a code unit outside the ASCII range
      exactly like any other character outside the classes it tests.
    - [Math.random] is an oracle [nat -> Q]: the value returned by the
      [i]-th call.  [Date.now] is a [Z], the milliseconds since the epoch.
    - The file system is a finite map from resolved paths (lists of
      components below [/]) to nodes.  POSIX path rules, no symbolic links.
    - Library code the program calls ([path.join], [fs.access], [fs.unlink],
      the multer middleware) is modelled directly next to its first use. *)

From Stdlib Require Import ZArith QArith Qround Lia Ascii String.
From stdpp Require Import base option list gmap strings.

Set Default Proof Using "Type".

(** ** JavaScript string primitives *)

Module JS.

(** The code units of a string, first to last. *)
Fixpoint chars_of (s : string) : list ascii :=
  match s with
  | EmptyString => []
  | String c s' => c :: chars_of s'
  end.

(** [s.charAt(i)]: the one-character string at index [i], or the empty
    string when [i] is out of range. *)
Definition charAt (s : string) (i : Z) : string :=
  if (i <? 0)%Z then ""
  else match String.get (Z.to_nat i) s with
       | Some c => String c ""
       | None => ""
       end.

(** [s.replace(/[...]/g, r)] for a pattern that matches one character:
    every matching character is replaced by [r], the others are kept. *)
Fixpoint replace_all (matches : ascii -> bool) (r : string) (s : string)
  : string :=
  match s with
  | EmptyString => EmptyString
  | String c s' =>
      if matches c then r +:+ replace_all matches r s'
      else String c (replace_all matches r s')
  end.

(** [arr.includes(x)] on an array of strings. *)
Definition includes (arr : list string) (x : string) : bool :=
  existsb (String.eqb x) arr.

(** [s.indexOf(c)] paired with the two slices around the hit: the text
    before the first [c] and the text after it. *)
Fixpoint split_first (c : ascii) (s : string) : option (string * string) :=
  match s with
  | EmptyString => None
  | String a s' =>
      if Ascii.eqb a c then Some (EmptyString, s')
      else match split_first c s' with
           | Some (l, r) => Some (String a l, r)
           | None => None
           end
  end.

(** [s.slice(n)]. *)
Fixpoint drop (n : nat) (s : string) : string :=
  match n, s with
  | O, _ => s
  | S n', String _ s' => drop n' s'
  | S _, EmptyString => EmptyString
  end.

(** *** [Number.prototype.toString(36)] on integers *)

Definition digits36 : string := "0123456789abcdefghijklmnopqrstuvwxyz".

Definition digit36 (d : Z) : ascii :=
  match String.get (Z.to_nat d) digits36 with
  | Some c => c
  | None => "0"%char
  end.

(** Most significant digit first; [acc] holds the digits already
    produced.  [fuel] bounds the number of digits. *)
Fixpoint radix36 (fuel : nat) (x : Z) (acc : string) : string :=
  match fuel with
  | O => acc
  | S fuel' =>
      let acc' := String (digit36 (x mod 36)) acc in
      if (x / 36 =? 0)%Z then acc' else radix36 fuel' (x / 36) acc'
  end.

Definition radix36_fuel (x : Z) : nat := S (Z.to_nat (Z.log2 x)).

Definition toString36 (x : Z) : string :=
  if (x <? 0)%Z
  then String "-" (radix36 (radix36_fuel (- x)) (- x) "")
  else radix36 (radix36_fuel x) x "".

(** *** [parseInt(s, 36)], the inverse used to read a suffix back *)

Definition digit36_val (c : ascii) : option Z :=
  let n := Z.of_N (N_of_ascii c) in
  if ((48 <=? n) && (n <=? 57))%Z then Some (n - 48)%Z
  else if ((97 <=? n) && (n <=? 122))%Z then Some (n - 87)%Z
  else if ((65 <=? n) && (n <=? 90))%Z then Some (n - 55)%Z
  else None.

(** Reads digits for as long as there are some; [acc] is [None] until the
    first digit was seen. *)
Fixpoint parse_digits36 (s : string) (acc : option Z) : option Z :=
  match s with
  | EmptyString => acc
  | String c s' =>
      match digit36_val c with
      | Some d => parse_digits36 s' (Some (from_option id 0 acc * 36 + d)%Z)
      | None => acc
      end
  end.

Definition parseInt36 (s : string) : option Z :=
  match s with
  | String c s' =>
      if Ascii.eqb c "-" then Z.opp <$> parse_digits36 s' None
      else if Ascii.eqb c "+" then parse_digits36 s' None
      else parse_digits36 s None
  | EmptyString => None
  end.

End JS.

(** ** The identifier generator and the stored name ([src/server.js]) *)

(** What one request sees of the runtime: the random source and the clock. *)
Record runtime := Runtime {
  random : nat -> Q;   (* Math.random(): value of the i-th call *)
  now : Z              (* Date.now() *)
}.

(** The contract of [Math.random]: every draw lies in [0, 1). *)
Definition random_in_range (rt : runtime) : Prop :=
  forall i, (0 <= random rt i)%Q /\ (random rt i < 1)%Q.

Definition chars : string :=
  "ABCDEFGHIJKLMNOPQRSTUVWXYZabcdefghijklmnopqrstuvwxyz0123456789".

(** One draw: [chars.charAt(Math.floor(Math.random() * chars.length))]. *)
Definition random_char (r : Q) : string :=
  JS.charAt chars (Qfloor (r * inject_Z (Z.of_nat (String.length chars)))).

(** The [for] loop of [generateCustomID]: [i] is the loop counter and doubles
    as the number of draws made so far, [todo] the iterations that remain. *)
Fixpoint random_loop (rnd : nat -> Q) (i todo : nat) (randomPart : string)
  : string :=
  match todo with
  | O => randomPart
  | S todo' =>
      random_loop rnd (S i) todo' (randomPart +:+ random_char (rnd i))
  end.

Definition generateCustomID (rt : runtime) (length : nat) : string :=
  random_loop (random rt) 0 length "" +:+ JS.toString36 (now rt).

(** The default argument, [length = 8]. *)
Definition generateCustomID_default (rt : runtime) : string :=
  generateCustomID rt 8.

(** The part of multer's [file] object the program reads. *)
Record upload_file := UploadFile {
  originalname : string;
  mimetype : string
}.

(** The class [a-zA-Z0-9.-] of the sanitising pattern. *)
Definition is_alnum (c : ascii) : bool :=
  let n := N_of_ascii c in
  ((97 <=? n) && (n <=? 122) || (65 <=? n) && (n <=? 90)
   || (48 <=? n) && (n <=? 57))%N.

Definition in_class (c : ascii) : bool :=
  is_alnum c || Ascii.eqb c "." || Ascii.eqb c "-".

(** [file.originalname.replace(/[^a-zA-Z0-9.-]/g, "_")] *)
Definition sanitize (originalName : string) : string :=
  JS.replace_all (fun c => negb (in_class c)) "_" originalName.

(** [storage.filename]: the name handed to multer's callback. *)
Definition filename (rt : runtime) (file : upload_file) : string :=
  let sanitizedFileName := sanitize (originalname file) in
  generateCustomID_default rt +:+ "-" +:+ sanitizedFileName.


(** ** [path] (POSIX flavour) *)

Module Path.

(** [s.split("/")]: never empty, ["a//b"] gives ["a"; ""; "b"]. *)
Fixpoint split (s : string) : list string :=
  match s with
  | EmptyString => [EmptyString]
  | String c s' =>
      if Ascii.eqb c "/" then EmptyString :: split s'
      else match split s' with
           | seg :: rest => String c seg :: rest
           | [] => [String c EmptyString]
           end
  end.

Definition isAbsolute (p : string) : bool :=
  match p with String "/" _ => true | _ => false end.

Fixpoint trailingSeparator (p : string) : bool :=
  match p with
  | EmptyString => false
  | String c EmptyString => Ascii.eqb c "/"
  | String _ p' => trailingSeparator p'
  end.

(** Node's [normalizeString], component by component.  [res] is the stack
    of components kept so far, innermost first.  Empty components and [.]
    are dropped; [..] pops a kept component, and where there is none to
    pop it is kept only if [allowAboveRoot]. *)
Fixpoint normalizeString (allowAboveRoot : bool) (segs res : list string)
  : list string :=
  match segs with
  | [] => rev res
  | seg :: segs' =>
      if String.eqb seg "" || String.eqb seg "." then
        normalizeString allowAboveRoot segs' res
      else if String.eqb seg ".." then
        match res with
        | top :: res' =>
            if String.eqb top ".." then
              normalizeString allowAboveRoot segs'
                (if allowAboveRoot then ".." :: res else res)
            else normalizeString allowAboveRoot segs' res'
        | [] =>
            normalizeString allowAboveRoot segs'
              (if allowAboveRoot then [".."] else [])
        end
      else normalizeString allowAboveRoot segs' (seg :: res)
  end.

(** [path.normalize]. *)
Definition normalize (p : string) : string :=
  if String.eqb p "" then "."
  else
    let abs := isAbsolute p in
    let trailing := trailingSeparator p in
    let body := String.concat "/" (normalizeString (negb abs) (split p) []) in
    if String.eqb body "" then
      if abs then "/" else if trailing then "./" else "."
    else
      (if abs then "/" else "") +:+ body +:+ (if trailing then "/" else "").

(** [path.join(...args)] on string arguments: the non-empty arguments are
    glued with [/] and the result is normalised. *)
Definition join (args : list string) : string :=
  match List.filter (fun a => negb (String.eqb a "")) args with
  | [] => "."
  | parts => normalize (String.concat "/" parts)
  end.

End Path.

(** ** [fs]: the disk and the calls the program makes on it *)

Module Fs.

Inductive node :=
| RegularFile (size : N)
| Directory.

Inductive errno := ENOENT | ENOTDIR | EISDIR.

Inductive syscall :=
| Access (path : string)
| Unlink (path : string)
| Open (path : string)
| Write (path : string) (bytes : N).

(** A resolved path: the components below the root directory. *)
Abbreviation location := (list string).

Record world := World {
  disk : gmap location node;
  trace : list syscall      (* every call made so far, oldest first *)
}.

(** An effectful computation over the world. *)
Definition action (A : Type) : Type := world -> A * world.

Definition ret {A} (a : A) : action A := fun w => (a, w).
Definition bind {A B} (m : action A) (k : A -> action B) : action B :=
  fun w => let (a, w') := m w in k a w'.

Definition log (c : syscall) : action unit :=
  fun w => (tt, World (disk w) (trace w ++ [c])).

(** Where the kernel finds an absolute path.  Every path the program
    passes to [fs] comes out of [path.join] on [__dirname], so it carries
    no [.] or [..]; they are resolved lexically here all the same. *)
Definition resolve (p : string) : location :=
  Path.normalizeString false (Path.split p) [].

(** A path with a NUL character is refused before any system call: Node
    throws [ERR_INVALID_ARG_VALUE] from the [fs] function itself. *)
Definition has_nul (p : string) : bool :=
  existsb (Ascii.eqb "000") (JS.chars_of p).

(** What the path names, if anything.  A trailing separator demands a
    directory. *)
Definition stat (d : gmap location node) (p : string)
  : errno + node :=
  match d !! resolve p with
  | None => inl ENOENT
  | Some Directory => inr Directory
  | Some (RegularFile n) =>
      if Path.trailingSeparator p then inl ENOTDIR else inr (RegularFile n)
  end.

(** [fs.access(p, F_OK, cb)]: the [err] handed to the callback. *)
Definition access (p : string) : action (option errno) :=
  bind (log (Access p)) (fun _ w =>
    (match stat (disk w) p with inl e => Some e | inr _ => None end, w)).

(** [fs.unlink(p, cb)]: removes a regular file, fails on anything else. *)
Definition unlink (p : string) : action (option errno) :=
  bind (log (Unlink p)) (fun _ w =>
    match stat (disk w) p with
    | inl e => (Some e, w)
    | inr Directory => (Some EISDIR, w)
    | inr (RegularFile _) =>
        (None, World (delete (resolve p) (disk w)) (trace w))
    end).

(** [fs.createWriteStream(p)] opening its file (flag [w]): creates or
    truncates a regular file inside an existing directory. *)
Definition open (p : string) : action (option errno) :=
  bind (log (Open p)) (fun _ w =>
    let loc := resolve p in
    if Path.trailingSeparator p then (Some EISDIR, w)
    else
      match disk w !! removelast loc, disk w !! loc with
      | None, _ => (Some ENOENT, w)
      | Some (RegularFile _), _ => (Some ENOTDIR, w)
      | Some Directory, Some Directory => (Some EISDIR, w)
      | Some Directory, _ =>
          (None, World (<[loc := RegularFile 0]> (disk w)) (trace w))
      end).

(** The write stream appending [n] bytes to its open file. *)
Definition write (p : string) (n : N) : action unit :=
  bind (log (Write p n)) (fun _ w =>
    match disk w !! resolve p with
    | Some (RegularFile size) =>
        (tt, World (<[resolve p := RegularFile (size + n)]> (disk w))
                   (trace w))
    | _ => (tt, w)
    end).

End Fs.

Global Instance fs_ret : MRet Fs.action := @Fs.ret.
Global Instance fs_bind : MBind Fs.action :=
  fun A B k m => Fs.bind m k.

(** ** [fs], the synchronous calls made while the program starts *)

Module FsSync.

Inductive error :=
| Errno (e : Fs.errno)
| EEXIST
| ERR_INVALID_ARG_VALUE.

(** [fs.existsSync(p)]: whether the path names something.  Any error makes
    it answer [false]; it never throws. *)
Definition existsSync (d : gmap Fs.location Fs.node) (p : string) : bool :=
  if Fs.has_nul p then false
  else match Fs.stat d p with inr _ => true | inl _ => false end.

(** [fs.mkdirSync(p)]: makes one directory inside an existing one. *)
Definition mkdirSync (d : gmap Fs.location Fs.node) (p : string)
  : error + gmap Fs.location Fs.node :=
  if Fs.has_nul p then inl ERR_INVALID_ARG_VALUE
  else
    let loc := Fs.resolve p in
    match d !! loc with
    | Some _ => inl EEXIST
    | None =>
        match d !! removelast loc with
        | Some Fs.Directory => inr (<[loc := Fs.Directory]> d)
        | Some (Fs.RegularFile _) => inl (Errno Fs.ENOTDIR)
        | None => inl (Errno Fs.ENOENT)
        end
    end.

(** The walk of a recursive [mkdir] down from the root: [here] is the
    directory reached, [below] the components still to descend.  A missing
    directory is made, an existing one is entered, a regular file in the
    way is an error. *)
Fixpoint mkdir_walk (d : gmap Fs.location Fs.node) (here below : list string)
  : error + gmap Fs.location Fs.node :=
  match d !! here with
  | Some (Fs.RegularFile _) =>
      inl (match below with [] => EEXIST | _ :: _ => Errno Fs.ENOTDIR end)
  | found =>
      let d' :=
        match found with
        | None => <[here := Fs.Directory]> d
        | Some _ => d
        end in
      match below with
      | [] => inr d'
      | c :: below' => mkdir_walk d' (here ++ [c]) below'
      end
  end.

(** [fs.mkdirSync(p, { recursive: true })]. *)
Definition mkdirSync_recursive (d : gmap Fs.location Fs.node) (p : string)
  : error + gmap Fs.location Fs.node :=
  if Fs.has_nul p then inl ERR_INVALID_ARG_VALUE
  else mkdir_walk d [] (Fs.resolve p).

End FsSync.

(** ** multer: the upload middleware *)

Module Multer.

Inductive code := LIMIT_FILE_SIZE | LIMIT_UNEXPECTED_FILE.

Inductive error :=
| MulterError (c : code)        (* instanceof multer.MulterError *)
| Error (message : string)      (* made by the application *)
| SystemError (e : Fs.errno)    (* raised by the write stream *)
| InvalidPath.                  (* ERR_INVALID_ARG_VALUE: NUL in the path *)

Definition strerror (e : Fs.errno) : string :=
  match e with
  | Fs.ENOENT => "ENOENT: no such file or directory"
  | Fs.ENOTDIR => "ENOTDIR: not a directory"
  | Fs.EISDIR => "EISDIR: illegal operation on a directory"
  end.

(** [error.message] *)
Definition message (e : error) : string :=
  match e with
  | MulterError LIMIT_FILE_SIZE => "File too large"
  | MulterError LIMIT_UNEXPECTED_FILE => "Unexpected field"
  | Error m => m
  | SystemError e => strerror e
  | InvalidPath => "The argument 'path' must be a string without null bytes"
  end.

(** What a [fileFilter] hands to its callback: [cb(err)], [cb(null, false)]
    or [cb(null, true)]. *)
Inductive decision := Reject (e : error) | Skip | Include.

(** The default filter: [cb(null, true)]. *)
Definition allowAll (file : upload_file) : decision := Include.

(** [multer({ storage, limits, fileFilter })] with a disk storage. *)
Record options := Options {
  destination : string;
  getFilename : runtime -> upload_file -> string;
  fileSize : option N;          (* limits.fileSize; absent = no limit *)
  fileFilter : upload_file -> decision
}.

(** The file part of a multipart request, as the parser delivers it. *)
Record file_part := FilePart {
  fieldname : string;
  part_filename : string;
  part_mimetype : string;
  part_size : N                 (* bytes in the part's body *)
}.

(** [req.file] after a successful upload. *)
Record stored_file := StoredFile {
  stored_filename : string;
  stored_path : string;
  stored_size : N
}.

Inductive result :=
| Next (file : option stored_file)   (* next() with req.file set or not *)
| Fail (e : error).                  (* next(err) *)

(** Whether the parser cuts a body of [size] bytes at [limit].  A body
    longer than the limit is always cut; one of exactly [limit] bytes is
    cut by some versions of the parser ([at_boundary]). *)
Definition truncates (at_boundary : bool) (limit : option N) (size : N)
  : bool :=
  match limit with
  | None => false
  | Some l => (l <? size)%N || (at_boundary && (size =? l)%N)
  end.

(** [upload.single(name)] on a request with at most one file part.
    The filter runs before the storage is asked for anything; the file is
    then streamed to [destination/filename], and when the parser cuts the
    stream the middleware waits for the write to end, removes the file
    and fails with [LIMIT_FILE_SIZE]. *)
Definition single (at_boundary : bool) (o : options) (name : string)
    (rt : runtime) (part : option file_part) : Fs.action result :=
  match part with
  | None => mret (Next None)
  | Some fp =>
      if String.eqb (part_filename fp) "" then mret (Next None)
      else if negb (String.eqb (fieldname fp) name) then
        mret (Fail (MulterError LIMIT_UNEXPECTED_FILE))
      else
        let file := UploadFile (part_filename fp) (part_mimetype fp) in
        match fileFilter o file with
        | Reject e => mret (Fail e)
        | Skip => mret (Next None)
        | Include =>
            let filename := getFilename o rt file in
            let finalPath := Path.join [destination o; filename] in
            if Fs.has_nul finalPath then mret (Fail InvalidPath)
            else
              err ← Fs.open finalPath;
              match err with
              | Some e => mret (Fail (SystemError e))
              | None =>
                  let cut := truncates at_boundary (fileSize o) (part_size fp) in
                  let written :=
                    if cut then default 0%N (fileSize o) else part_size fp in
                  _ ← Fs.write finalPath written;
                  if cut then
                    _ ← Fs.unlink finalPath;
                    mret (Fail (MulterError LIMIT_FILE_SIZE))
                  else
                    mret (Next (Some (StoredFile filename finalPath written)))
              end
        end
  end.

End Multer.

(** ** The routes of [src/server.js] *)

(** A value found in the body that [express.json()] parsed, or [undefined]
    for a field the body does not have. *)
Inductive jsvalue :=
| JUndefined
| JNull
| JBool (b : bool)
| JNumber (q : Q)
| JString (s : string)
| JObject.                       (* any object or array *)

(** JavaScript truthiness, as tested by [!fileName]. *)
Definition truthy (v : jsvalue) : bool :=
  match v with
  | JUndefined | JNull => false
  | JBool b => b
  | JNumber q => negb (Qeq_bool q 0)
  | JString s => negb (String.eqb s "")
  | JObject => true
  end.

Inductive payload :=
| Message (message : string)
| FileUrl (fileUrl : string).

(** What the client receives: a JSON reply of the program, or the answer of
    Express's own error handler (status 500) to an exception or to an error
    no route takes care of. *)
Inductive reply :=
| Json (status : Z) (success : bool) (body : payload)
| Unhandled (error : string).

Module Server.
Section Routes.

Variable __dirname : string.

Definition UPLOADS_DIR : string := Path.join [__dirname; "uploads"].

Definition allowedTypes : list string :=
  [ "image/png";
    "image/jpeg";
    "image/jpg";
    "application/pdf";
    "application/vnd.openxmlformats-officedocument.wordprocessingml.document";
    "application/msword";
    "application/vnd.openxmlformats-officedocument.spreadsheetml.sheet";
    "application/vnd.ms-excel" ].

Definition fileFilter (file : upload_file) : Multer.decision :=
  if negb (JS.includes allowedTypes (mimetype file)) then
    Multer.Reject (Multer.Error "Unsupported file type")
  else Multer.Include.

Definition upload : Multer.options :=
  {| Multer.destination := UPLOADS_DIR;
     Multer.getFilename := filename;
     Multer.fileSize := Some (40 * 1024 * 1024)%N;
     Multer.fileFilter := fileFilter |}.

(** [app.post("/upload", upload.single("file"), handler, errorHandler)] *)
Definition upload_route (at_boundary : bool) (rt : runtime)
    (part : option Multer.file_part) : Fs.action reply :=
  r ← Multer.single at_boundary upload "file" rt part;
  match r with
  | Multer.Next None =>
      mret (Json 400 false (Message "No file found in the request body"))
  | Multer.Next (Some file) =>
      mret (Json 200 true
              (FileUrl ("/uploads/" +:+ Multer.stored_filename file)))
  | Multer.Fail e =>
      mret (Json 400 false (Message (Multer.message e)))
  end.

(** [app.delete("/delete", ...)]; [fileName] is [req.body.fileName]. *)
Definition delete_route (fileName : jsvalue) : Fs.action reply :=
  if negb (truthy fileName) then
    mret (Json 400 false (Message "File name is required"))
  else
    match fileName with
    | JString name =>
        let filePath := Path.join [UPLOADS_DIR; name] in
        if Fs.has_nul filePath then mret (Unhandled "ERR_INVALID_ARG_VALUE")
        else
          err ← Fs.access filePath;
          match err with
          | Some _ => mret (Json 404 false (Message "File not found"))
          | None =>
              err ← Fs.unlink filePath;
              match err with
              | Some _ =>
                  mret (Json 500 false (Message "Error deleting file"))
              | None =>
                  mret (Json 200 true (Message "File deleted successfully"))
              end
          end
    | _ => mret (Unhandled "ERR_INVALID_ARG_TYPE")
    end.

(** The start of the program, on the disk it finds:
    [if (!fs.existsSync(UPLOADS_DIR)) fs.mkdirSync(UPLOADS_DIR, { recursive: true })].
    The result is the disk it leaves, or the error that stops the program. *)
Definition ensure_uploads_dir (d : gmap Fs.location Fs.node)
  : FsSync.error + gmap Fs.location Fs.node :=
  if negb (FsSync.existsSync d UPLOADS_DIR) then
    FsSync.mkdirSync_recursive d UPLOADS_DIR
  else inr d.

End Routes.
End Server.

(** ** The two older variants of the program *)

(** [src/unnamed/part_000]: the same program with a shorter allow-list, its
    own rejection message and no error-handling middleware on the upload
    route.  Its identifier generator, its [storage] and its delete route
    are those of [src/server.js], character for character. *)
Module Part000.
Section Routes.

Variable __dirname : string.

Definition allowedTypes : list string :=
  [ "image/png"; "image/jpeg"; "image/jpg"; "application/pdf" ].

Definition fileFilter (file : upload_file) : Multer.decision :=
  if negb (JS.includes allowedTypes (mimetype file)) then
    Multer.Reject
      (Multer.Error "Invalid file type. Only PNG, JPEG, JPG, and PDF allowed.")
  else Multer.Include.

Definition upload : Multer.options :=
  {| Multer.destination := Server.UPLOADS_DIR __dirname;
     Multer.getFilename := filename;
     Multer.fileSize := Some (40 * 1024 * 1024)%N;
     Multer.fileFilter := fileFilter |}.

Definition upload_route (at_boundary : bool) (rt : runtime)
    (part : option Multer.file_part) : Fs.action reply :=
  r ← Multer.single at_boundary upload "file" rt part;
  match r with
  | Multer.Next None =>
      mret (Json 400 false (Message "No file found in the request body"))
  | Multer.Next (Some file) =>
      mret (Json 200 true
              (FileUrl ("/uploads/" +:+ Multer.stored_filename file)))
  | Multer.Fail e => mret (Unhandled (Multer.message e))
  end.

(** [if (!fs.existsSync(UPLOADS_DIR)) fs.mkdirSync(UPLOADS_DIR)] *)
Definition ensure_uploads_dir (d : gmap Fs.location Fs.node)
  : FsSync.error + gmap Fs.location Fs.node :=
  if negb (FsSync.existsSync d (Server.UPLOADS_DIR __dirname)) then
    FsSync.mkdirSync d (Server.UPLOADS_DIR __dirname)
  else inr d.

End Routes.
End Part000.

(** [src/unnamed/part_001]: the earliest variant.  The original name is
    used as it comes, and [multer] gets a storage and nothing else: no
    filter, no limits.  Its delete route joins [__dirname], ["uploads"] and
    the name in one call and is otherwise the one of [src/server.js]. *)
Module Part001.
Section Routes.

Variable __dirname : string.

Definition filename (rt : runtime) (file : upload_file) : string :=
  generateCustomID_default rt +:+ "-" +:+ originalname file.

Definition upload : Multer.options :=
  {| Multer.destination := Path.join [__dirname; "uploads"];
     Multer.getFilename := filename;
     Multer.fileSize := None;
     Multer.fileFilter := Multer.allowAll |}.

Definition upload_route (at_boundary : bool) (rt : runtime)
    (part : option Multer.file_part) : Fs.action reply :=
  r ← Multer.single at_boundary upload "file" rt part;
  match r with
  | Multer.Next None =>
      mret (Json 400 false (Message "No file found in the request body"))
  | Multer.Next (Some file) =>
      mret (Json 200 true
              (FileUrl ("/uploads/" +:+ Multer.stored_filename file)))
  | Multer.Fail e => mret (Unhandled (Multer.message e))
  end.

(** [if (!fs.existsSync(path.join(__dirname, "uploads")))
      fs.mkdirSync(path.join(__dirname, "uploads"))] *)
Definition ensure_uploads_dir (d : gmap Fs.location Fs.node)
  : FsSync.error + gmap Fs.location Fs.node :=
  if negb (FsSync.existsSync d (Path.join [__dirname; "uploads"])) then
    FsSync.mkdirSync d (Path.join [__dirname; "uploads"])
  else inr d.

(** [app.delete("/delete", ...)] of this variant: the three parts of the
    path are joined in one call. *)
Definition delete_route (fileName : jsvalue) : Fs.action reply :=
  if negb (truthy fileName) then
    mret (Json 400 false (Message "File name is required"))
  else
    match fileName with
    | JString name =>
        let filePath := Path.join [__dirname; "uploads"; name] in
        if Fs.has_nul filePath then mret (Unhandled "ERR_INVALID_ARG_VALUE")
        else
          err ← Fs.access filePath;
          match err with
          | Some _ => mret (Json 404 false (Message "File not found"))
          | None =>
              err ← Fs.unlink filePath;
              match err with
              | Some _ =>
                  mret (Json 500 false (Message "Error deleting file"))
              | None =>
                  mret (Json 200 true (Message "File deleted successfully"))
              end
          end
    | _ => mret (Unhandled "ERR_INVALID_ARG_TYPE")
    end.

End Routes.
End Part001.

(** ** Vocabulary of the statements *)

(** The storage root as the kernel sees it. *)
Definition storage_root (__dirname : string) : Fs.location :=
  Fs.resolve (Server.UPLOADS_DIR __dirname).

(** A location strictly below the storage root. *)
Definition inside_root (__dirname : string) (loc : Fs.location) : Prop :=
  storage_root __dirname `prefix_of` loc /\ loc <> storage_root __dirname.

(** A single path segment that names an entry of its directory: not empty,
    not a reference to the directory or to its parent, free of separators
    and of NUL. *)
Definition safe_segment (s : string) : bool :=
  negb (String.eqb s "") && negb (String.eqb s ".")
  && negb (String.eqb s "..")
  && forallb (fun c => negb (Ascii.eqb c "/") && negb (Ascii.eqb c "\")
                       && negb (Ascii.eqb c "000"))
       (JS.chars_of s).

(** [__dirname] is the directory of the running script: an absolute path. *)
Definition script_dir (__dirname : string) : Prop :=
  Path.isAbsolute __dirname = true /\ Fs.has_nul __dirname = false.

(** A digit of [Number.prototype.toString(36)]. *)
Definition is_digit36 (c : ascii) : bool :=
  let n := N_of_ascii c in
  ((48 <=? n) && (n <=? 57) || (97 <=? n) && (n <=? 122))%N.

(** [d] is the base-36 numeral of [x]: a non-empty run of digits, without a
    leading zero unless it is ["0"], that [parseInt] reads back as [x],
    whatever it had read before and whatever follows. *)
Definition numeral36 (x : Z) (d : string) : Prop :=
  d <> ""
  /\ forallb is_digit36 (JS.chars_of d) = true
  /\ (forall (rest : string) (a : option Z),
       JS.parse_digits36 (d +:+ rest) a
       = JS.parse_digits36 rest
           (Some (from_option id 0 a * 36 ^ Z.of_nat (String.length d) + x)%Z))
  /\ (x < 36 ^ Z.of_nat (String.length d))%Z
  /\ (36 ^ Z.of_nat (String.length d) <= 36 * Z.max x 1)%Z.

(** The value of a run of base-36 digits, most significant first. *)
Fixpoint val36 (s : string) : Z :=
  match s with
  | EmptyString => 0
  | String c r =>
      (from_option id 0 (JS.digit36_val c) * 36 ^ Z.of_nat (String.length r)
       + val36 r)%Z
  end.

(** A path component that names an entry: neither empty nor a reference to
    the directory itself or to its parent. *)
Definition ordinary (seg : string) : Prop :=
  seg <> "" /\ seg <> "." /\ seg <> "..".

Definition slashfree (seg : string) : Prop := "/"%char ∉ JS.chars_of seg.

(** The locations a walk from [here] down the components [below] passes
    through, both ends included. *)
Definition on_the_way (here below loc : list string) : Prop :=
  here `prefix_of` loc /\ loc `prefix_of` here ++ below.

(** ** Sample inputs *)

(** A runtime to instantiate the statements at: draws cycling through
    0, 1/5, ..., 4/5 and a clock reading of November 2023. *)
Definition sample_runtime : runtime :=
  Runtime (fun i => (Z.of_nat (i mod 5) # 5)%Q) 1700000000000.

(** A disk with the application in [/app] and a file outside of it. *)
Definition sample_world : Fs.world :=
  Fs.World
    (list_to_map
       [ ([], Fs.Directory);
         (["app"], Fs.Directory);
         (["app"; "uploads"], Fs.Directory);
         (["app"; "uploads"; "Ab3dE6gHlq2k9x1c-report.pdf"], Fs.RegularFile 2048);
         (["etc"], Fs.Directory);
         (["etc"; "passwd"], Fs.RegularFile 1024) ])
    [].

(** * Properties *)

(** ** Strings *)

Section StringFacts.

Lemma str_app_nil_l (s : string) : "" +:+ s = s.
Proof. reflexivity. Qed.

Lemma str_app_cons (c : ascii) (s t : string) :
  String c s +:+ t = String c (s +:+ t).
Proof. reflexivity. Qed.

Lemma str_app_nil_r (s : string) : s +:+ "" = s.
Proof. induction s as [|c s IH]; [done|]. by rewrite str_app_cons, IH. Qed.

Lemma str_app_assoc (s t u : string) : (s +:+ t) +:+ u = s +:+ t +:+ u.
Proof.
  induction s as [|c s IH]; [done|]. by rewrite !str_app_cons, IH.
Qed.

Lemma str_length_app (s t : string) :
  String.length (s +:+ t) = String.length s + String.length t.
Proof.
  induction s as [|c s IH]; [done|]. rewrite str_app_cons. simpl. by rewrite IH.
Qed.

Lemma chars_of_app (s t : string) :
  JS.chars_of (s +:+ t) = JS.chars_of s ++ JS.chars_of t.
Proof.
  induction s as [|c s IH]; [done|]. rewrite str_app_cons. simpl. by rewrite IH.
Qed.

Lemma chars_of_length (s : string) :
  length (JS.chars_of s) = String.length s.
Proof. induction s as [|c s IH]; simpl; congruence. Qed.

Lemma chars_of_inj (s t : string) : JS.chars_of s = JS.chars_of t -> s = t.
Proof.
  revert t. induction s as [|c s IH]; intros [|d t] H; simplify_eq/=; [done|].
  f_equal. by apply IH.
Qed.

Lemma get_chars_of (s : string) (i : nat) :
  String.get i s = JS.chars_of s !! i.
Proof.
  revert i. induction s as [|c s IH]; intros [|i]; simpl; auto.
Qed.

Lemma get_elem_of (s : string) (i : nat) (c : ascii) :
  String.get i s = Some c -> c ∈ JS.chars_of s.
Proof. rewrite get_chars_of. apply list_elem_of_lookup_2. Qed.

Lemma get_in_range (s : string) (i : nat) :
  i < String.length s -> is_Some (String.get i s).
Proof.
  rewrite get_chars_of, <- chars_of_length. apply lookup_lt_is_Some_2.
Qed.

End StringFacts.

(** ** The sanitiser *)

Lemma replace_all_chars (matches : ascii -> bool) (r : ascii) (s : string) :
  JS.chars_of (JS.replace_all matches (String r "") s)
  = (fun c => if matches c then r else c) <$> JS.chars_of s.
Proof.
  induction s as [|c s IH]; [done|]. simpl.
  destruct (matches c); rewrite ?str_app_cons, ?str_app_nil_l; simpl; by rewrite IH.
Qed.

(** C2.  Sanitising keeps the length of the original name and works
    position by position: a character of the class [A-Za-z0-9.-] stays as
    it is, every other character becomes an underscore. *)
Theorem sanitize_positionwise (originalName : string) :
  String.length (sanitize originalName) = String.length originalName
  /\ forall i : nat,
       String.get i (sanitize originalName)
       = (fun c => if in_class c then c else "_"%char)
           <$> String.get i originalName.
Proof.
  assert (JS.chars_of (sanitize originalName)
          = (fun c => if in_class c then c else "_"%char)
              <$> JS.chars_of originalName) as Hmap.
  { unfold sanitize. rewrite replace_all_chars.
    apply list_fmap_ext. intros _ c _. by destruct (in_class c). }
  split.
  - by rewrite <- !chars_of_length, Hmap, length_fmap.
  - intros i. by rewrite !get_chars_of, Hmap, list_lookup_fmap.
Qed.

(** ** The identifier generator *)

Section Generator.

Lemma chars_length : String.length chars = 62.
Proof. reflexivity. Qed.

Lemma is_alnum_chars (c : ascii) :
  is_alnum c = bool_decide (c ∈ JS.chars_of chars).
Proof. destruct c as [[] [] [] [] [] [] [] []]; by vm_compute. Qed.

(** Under the contract of [Math.random] the computed index is a valid
    index into [chars]. *)
Lemma random_index_bounds (r : Q) :
  (0 <= r)%Q -> (r < 1)%Q ->
  (0 <= Qfloor (r * inject_Z (Z.of_nat (String.length chars))) < 62)%Z.
Proof.
  intros H0 H1. rewrite chars_length. change (Z.of_nat 62) with 62%Z. split.
  - change 0%Z with (Qfloor 0). apply Qfloor_resp_le.
    apply Qmult_le_0_compat; [done|]. by compute.
  - rewrite Zlt_Qlt. eapply Qle_lt_trans; [apply Qfloor_le|].
    apply Qlt_le_trans with (1 * inject_Z 62)%Q; [|by compute].
    apply Qmult_lt_compat_r; [|done]. by compute.
Qed.

(** One draw without any assumption on the oracle: nothing, or one
    character of the alphabet. *)
Lemma random_char_cases (r : Q) :
  random_char r = ""
  \/ exists c, random_char r = String c "" /\ c ∈ JS.chars_of chars.
Proof.
  unfold random_char, JS.charAt. case_match; [by left|].
  destruct (String.get _ chars) as [c|] eqn:Hget; [|by left].
  right. exists c. split; [done|]. by eapply get_elem_of.
Qed.

Lemma random_char_in_range (r : Q) :
  (0 <= r)%Q -> (r < 1)%Q ->
  exists c,
    random_char r = String c ""
    /\ String.get
         (Z.to_nat (Qfloor (r * inject_Z (Z.of_nat (String.length chars)))))
         chars = Some c
    /\ c ∈ JS.chars_of chars.
Proof.
  intros H0 H1. pose proof (random_index_bounds r H0 H1) as Hidx.
  unfold random_char, JS.charAt.
  generalize dependent (Qfloor (r * inject_Z (Z.of_nat (String.length chars)))).
  intros idx [Hlo Hhi]. destruct (Z.ltb_spec idx 0); [lia|].
  destruct (get_in_range chars (Z.to_nat idx)) as [c Hc];
    [rewrite chars_length; lia|].
  rewrite Hc. exists c. eauto using get_elem_of.
Qed.

(** The loop only appends to what it was given. *)
Lemma random_loop_app (rnd : nat -> Q) (todo i : nat) (acc : string) :
  random_loop rnd i todo acc = acc +:+ random_loop rnd i todo "".
Proof.
  revert i acc. induction todo as [|todo IH]; intros i acc; simpl.
  - by rewrite str_app_nil_r.
  - rewrite (IH _ (acc +:+ _)), (IH _ ("" +:+ _)).
    by rewrite str_app_nil_l, str_app_assoc.
Qed.

Lemma random_loop_step (rnd : nat -> Q) (todo i : nat) :
  random_loop rnd i (S todo) ""
  = random_char (rnd i) +:+ random_loop rnd (S i) todo "".
Proof. simpl. by rewrite random_loop_app, str_app_nil_l. Qed.

Lemma random_loop_alphabet (rnd : nat -> Q) (todo i : nat) :
  Forall (fun c => c ∈ JS.chars_of chars)
    (JS.chars_of (random_loop rnd i todo "")).
Proof.
  revert i. induction todo as [|todo IH]; intros i.
  - constructor.
  - rewrite random_loop_step, chars_of_app. apply Forall_app. split; [|done].
    destruct (random_char_cases (rnd i)) as [->|(c & -> & Hc)].
    + apply Forall_nil_2.
    + apply Forall_cons_2; [done | apply Forall_nil_2].
Qed.

Lemma random_loop_exact (rnd : nat -> Q) (todo i : nat) :
  (forall j, (0 <= rnd j)%Q /\ (rnd j < 1)%Q) ->
  String.length (random_loop rnd i todo "") = todo
  /\ forall k, k < todo ->
       String.get k (random_loop rnd i todo "")
       = String.get
           (Z.to_nat
              (Qfloor (rnd (i + k) * inject_Z (Z.of_nat (String.length chars)))))
           chars.
Proof.
  intros Hrnd. revert i. induction todo as [|todo IH]; intros i.
  - split; [done|]. intros k Hk. lia.
  - rewrite random_loop_step.
    destruct (random_char_in_range (rnd i)) as (c & -> & Hget & _);
      [apply Hrnd..|].
    destruct (IH (S i)) as [Hlen Hnth]. rewrite str_app_cons, str_app_nil_l.
    split; [simpl; by rewrite Hlen|].
    intros [|k] Hk; cbn [String.get].
    + by rewrite Nat.add_0_r, Hget.
    + rewrite Hnth by lia. by replace (S i + k) with (i + S k) by lia.
Qed.

End Generator.

(** ** Base-36 numerals *)

Section Radix36.

Local Open Scope Z_scope.

Lemma digit36_correct (k : Z) :
  0 <= k < 36 ->
  JS.digit36_val (JS.digit36 k) = Some k /\ is_digit36 (JS.digit36 k) = true.
Proof.
  intros Hk. assert (exists n : nat, k = Z.of_nat n /\ (n < 36)%nat)
    as (n & -> & Hn) by (exists (Z.to_nat k); lia).
  do 36 (destruct n as [|n]; [by vm_compute|]). lia.
Qed.

Lemma digit36_not_sign (c : ascii) :
  is_digit36 c = true -> Ascii.eqb c "-" = false /\ Ascii.eqb c "+" = false.
Proof. destruct c as [[] [] [] [] [] [] [] []]; by vm_compute. Qed.

Lemma digit36_is_alnum (c : ascii) : is_digit36 c = true -> is_alnum c = true.
Proof. destruct c as [[] [] [] [] [] [] [] []]; by vm_compute. Qed.

(** A single digit is the numeral of its value. *)
Lemma numeral36_digit (x : Z) :
  0 <= x < 36 -> numeral36 x (String (JS.digit36 x) "").
Proof.
  intros Hx. destruct (digit36_correct x Hx) as [Hval Hdig].
  split; [done|]. split; [by cbn [forallb JS.chars_of]; rewrite Hdig|].
  change (Z.of_nat (String.length (String (JS.digit36 x) ""))) with 1.
  split; [|lia].
  intros rest a. rewrite str_app_cons, str_app_nil_l.
  cbn [JS.parse_digits36]. by rewrite Hval.
Qed.

(** Appending the last digit to the numeral of the quotient. *)
Lemma numeral36_snoc (x : Z) (d : string) :
  36 <= x -> numeral36 (x / 36) d ->
  numeral36 x (d +:+ String (JS.digit36 (x mod 36)) "").
Proof.
  intros Hx (Hne & Hdig & Hparse & Hup & Hlow).
  destruct (digit36_correct (x mod 36)) as [Hval Hdig'];
    [apply Z.mod_pos_bound; lia|].
  pose proof (Z.div_mod x 36 ltac:(lia)) as Hdm.
  pose proof (Z.mod_pos_bound x 36 ltac:(lia)) as Hmod.
  assert (1 <= x / 36) by (apply Z.div_le_lower_bound; lia).
  assert (Z.of_nat (String.length (d +:+ String (JS.digit36 (x mod 36)) ""))
          = Z.succ (Z.of_nat (String.length d))) as Hlen.
  { rewrite str_length_app. cbn [String.length]. lia. }
  split; [by destruct d|]. split.
  { rewrite chars_of_app, forallb_app, Hdig.
    cbn [forallb JS.chars_of]. by rewrite Hdig'. }
  rewrite Hlen, Z.pow_succ_r by lia. split; [|lia].
  intros rest a. rewrite str_app_assoc, str_app_cons, str_app_nil_l, Hparse.
  cbn [JS.parse_digits36]. rewrite Hval. do 2 f_equal. cbn [from_option id].
  lia.
Qed.

Lemma radix36_S (fuel : nat) (x : Z) (acc : string) :
  JS.radix36 (S fuel) x acc
  = if x / 36 =? 0 then String (JS.digit36 (x mod 36)) acc
    else JS.radix36 fuel (x / 36) (String (JS.digit36 (x mod 36)) acc).
Proof. reflexivity. Qed.

Lemma radix36_numeral (fuel : nat) (x : Z) (acc : string) :
  0 <= x < 36 ^ Z.of_nat (S fuel) ->
  exists d, JS.radix36 (S fuel) x acc = d +:+ acc /\ numeral36 x d.
Proof.
  revert x acc. induction fuel as [|fuel IH]; intros x acc Hx;
    rewrite radix36_S; destruct (Z.eqb_spec (x / 36) 0) as [Hq|Hq].
  1,3: assert (x mod 36 = x) as Hmod
         by (pose proof (Z.div_mod x 36 ltac:(lia)); lia);
       exists (String (JS.digit36 (x mod 36)) ""); split; [done|];
       rewrite Hmod; apply numeral36_digit;
       pose proof (Z.mod_pos_bound x 36 ltac:(lia)); lia.
  - exfalso. apply Hq. apply Z.div_small. change (36 ^ Z.of_nat 1) with 36 in Hx.
    lia.
  - assert (36 <= x).
    { destruct (Z.lt_ge_cases x 36); [|done].
      exfalso. apply Hq. apply Z.div_small. lia. }
    destruct (IH (x / 36) (String (JS.digit36 (x mod 36)) acc))
      as (d & Hd & Hnum).
    { split; [apply Z.div_pos; lia|].
      apply Z.div_lt_upper_bound; [lia|].
      rewrite (Nat2Z.inj_succ (S fuel)), Z.pow_succ_r in Hx; lia. }
    exists (d +:+ String (JS.digit36 (x mod 36)) ""). split.
    { by rewrite Hd, str_app_assoc, str_app_cons, str_app_nil_l. }
    by apply numeral36_snoc.
Qed.

Lemma radix36_fuel_enough (x : Z) :
  0 <= x -> x < 36 ^ Z.of_nat (JS.radix36_fuel x).
Proof.
  intros Hx. unfold JS.radix36_fuel.
  destruct (Z.eq_dec x 0) as [->|Hne]; [done|].
  pose proof (Z.log2_nonneg x) as Hlog.
  destruct (Z.log2_spec x ltac:(lia)) as [_ Hup].
  rewrite Nat2Z.inj_succ, Z2Nat.id by done.
  eapply Z.lt_le_trans; [apply Hup|]. apply Z.pow_le_mono_l. lia.
Qed.

(** [toString(36)] of a non-negative integer is one of its numerals. *)
Lemma toString36_numeral (x : Z) : 0 <= x -> numeral36 x (JS.toString36 x).
Proof.
  intros Hx. unfold JS.toString36.
  destruct (Z.ltb_spec x 0) as [|_]; [lia|].
  destruct (radix36_numeral (Z.to_nat (Z.log2 x)) x "") as (d & Hd & Hnum).
  { split; [done|]. by apply radix36_fuel_enough. }
  unfold JS.radix36_fuel. rewrite Hd, str_app_nil_r. done.
Qed.

Lemma toString36_negative (x : Z) :
  x < 0 -> exists d, JS.toString36 x = String "-" d /\ numeral36 (- x) d.
Proof.
  intros Hx. unfold JS.toString36.
  destruct (Z.ltb_spec x 0) as [_|]; [|lia].
  destruct (radix36_numeral (Z.to_nat (Z.log2 (- x))) (- x) "")
    as (d & Hd & Hnum).
  { split; [lia|]. apply radix36_fuel_enough. lia. }
  exists d. unfold JS.radix36_fuel. by rewrite Hd, str_app_nil_r.
Qed.

Lemma numeral36_parseInt (x : Z) (d : string) :
  numeral36 x d -> JS.parseInt36 d = Some x.
Proof.
  intros (Hne & Hdig & Hparse & _). destruct d as [|c d]; [done|].
  simpl in Hdig. apply andb_true_iff in Hdig as [Hc _].
  destruct (digit36_not_sign c Hc) as [Hminus Hplus].
  unfold JS.parseInt36. rewrite Hminus, Hplus.
  specialize (Hparse "" None). rewrite str_app_nil_r in Hparse.
  by rewrite Hparse.
Qed.

(** Reading back what [toString(36)] wrote gives the number, for every
    integer. *)
Lemma parseInt36_toString36 (x : Z) : JS.parseInt36 (JS.toString36 x) = Some x.
Proof.
  destruct (Z.lt_ge_cases x 0) as [Hneg|Hpos].
  - destruct (toString36_negative x Hneg)
      as (d & -> & Hne & Hdig & Hparse & _).
    unfold JS.parseInt36. rewrite Ascii.eqb_refl.
    specialize (Hparse "" None). rewrite str_app_nil_r in Hparse.
    rewrite Hparse. cbn [JS.parse_digits36 from_option fmap option_fmap option_map].
    f_equal. lia.
  - by apply numeral36_parseInt, toString36_numeral.
Qed.

(** *** Numerals as strings: the order of equally long numerals *)

Lemma digit36_val_spec (c : ascii) :
  is_digit36 c = true ->
  let n := Z.of_N (N_of_ascii c) in
  (48 <= n <= 57 /\ JS.digit36_val c = Some (n - 48))
  \/ (97 <= n <= 122 /\ JS.digit36_val c = Some (n - 87)).
Proof.
  destruct c as [[] [] [] [] [] [] [] []]; intros H; cbv in H;
    try discriminate H; cbn;
    ((left; split; [lia | reflexivity]) || (right; split; [lia | reflexivity])).
Qed.

Lemma val36_bound (s : string) :
  forallb is_digit36 (JS.chars_of s) = true ->
  0 <= val36 s < 36 ^ Z.of_nat (String.length s).
Proof.
  induction s as [|c r IH]; intros Hdig; [done|].
  cbn [forallb JS.chars_of] in Hdig. apply andb_true_iff in Hdig as [Hc Hr].
  specialize (IH Hr). cbn [val36 String.length].
  rewrite Nat2Z.inj_succ, Z.pow_succ_r by lia.
  assert (0 < 36 ^ Z.of_nat (String.length r)) by (apply Z.pow_pos_nonneg; lia).
  destruct (digit36_val_spec c Hc) as [[? ->]|[? ->]]; cbn [from_option id]; nia.
Qed.

Lemma parse_val36 (s : string) (a : option Z) :
  forallb is_digit36 (JS.chars_of s) = true -> s <> "" ->
  JS.parse_digits36 s a
  = Some (from_option id 0 a * 36 ^ Z.of_nat (String.length s) + val36 s).
Proof.
  revert a. induction s as [|c r IH]; intros a Hdig Hne; [done|].
  cbn [forallb JS.chars_of] in Hdig. apply andb_true_iff in Hdig as [Hc Hr].
  cbn [JS.parse_digits36 val36 String.length].
  assert (exists v, JS.digit36_val c = Some v) as [v Hv]
    by (destruct (digit36_val_spec c Hc) as [[_ ?]|[_ ?]]; eauto).
  rewrite Hv. cbn [from_option id].
  rewrite Nat2Z.inj_succ, Z.pow_succ_r by lia.
  destruct r as [|c' r'].
  - cbn. f_equal. lia.
  - rewrite IH by done. cbn [from_option id]. f_equal. lia.
Qed.

Lemma numeral36_val36 (x : Z) (d : string) : numeral36 x d -> val36 d = x.
Proof.
  intros (Hne & Hdig & Hparse & _).
  specialize (Hparse "" None). rewrite str_app_nil_r in Hparse.
  rewrite parse_val36 in Hparse by done. cbn in Hparse. by simplify_eq.
Qed.

(** Equally long runs of digits compare as strings the way their values
    compare as numbers. *)
Lemma compare_val36 (s1 s2 : string) :
  String.length s1 = String.length s2 ->
  forallb is_digit36 (JS.chars_of s1) = true ->
  forallb is_digit36 (JS.chars_of s2) = true ->
  String.compare s1 s2 = (val36 s1 ?= val36 s2).
Proof.
  revert s2. induction s1 as [|c1 r1 IH]; intros [|c2 r2] Hlen H1 H2;
    try done.
  cbn [forallb JS.chars_of] in H1, H2.
  apply andb_true_iff in H1 as [Hc1 Hr1]. apply andb_true_iff in H2 as [Hc2 Hr2].
  injection Hlen as Hlen. specialize (IH r2 Hlen Hr1 Hr2).
  pose proof (val36_bound r1 Hr1) as Hb1. pose proof (val36_bound r2 Hr2) as Hb2.
  cbn [String.compare val36 String.length]. rewrite <- Hlen in *.
  unfold Ascii.compare.
  set (P := 36 ^ Z.of_nat (String.length r1)) in *.
  assert (0 < P) by (apply Z.pow_pos_nonneg; lia).
  destruct (N.compare_spec (N_of_ascii c1) (N_of_ascii c2)) as [Heq|Hlt|Hgt].
  - assert (c1 = c2) as ->
      by (rewrite <- (ascii_N_embedding c1), <- (ascii_N_embedding c2);
          by rewrite Heq).
    rewrite IH. symmetry. apply Z.add_compare_mono_l.
  - symmetry. apply Z.compare_lt_iff.
    destruct (digit36_val_spec c1 Hc1) as [[? ->]|[? ->]],
             (digit36_val_spec c2 Hc2) as [[? ->]|[? ->]];
      cbn [from_option id]; nia.
  - symmetry. apply Z.compare_gt_iff.
    destruct (digit36_val_spec c1 Hc1) as [[? ->]|[? ->]],
             (digit36_val_spec c2 Hc2) as [[? ->]|[? ->]];
      cbn [from_option id]; nia.
Qed.

(** The numerals of two non-negative instants in order: the later one is
    at least as long, and when both are equally long they are in order as
    strings. *)
Lemma toString36_shortlex (t1 t2 : Z) :
  0 <= t1 <= t2 ->
  (String.length (JS.toString36 t1) <= String.length (JS.toString36 t2))%nat
  /\ (String.length (JS.toString36 t1) = String.length (JS.toString36 t2) ->
      String.leb (JS.toString36 t1) (JS.toString36 t2) = true).
Proof.
  intros Ht. pose proof (toString36_numeral t1 ltac:(lia)) as N1.
  pose proof (toString36_numeral t2 ltac:(lia)) as N2.
  pose proof (numeral36_val36 _ _ N1) as V1.
  pose proof (numeral36_val36 _ _ N2) as V2.
  destruct N1 as (Hne1 & Hdig1 & _ & Hup1 & Hlow1).
  destruct N2 as (Hne2 & Hdig2 & _ & Hup2 & Hlow2). split.
  - destruct (Nat.le_gt_cases (String.length (JS.toString36 t1))
                (String.length (JS.toString36 t2))) as [|Hgt]; [done|].
    exfalso.
    assert (36 * 36 ^ Z.of_nat (String.length (JS.toString36 t2))
            <= 36 ^ Z.of_nat (String.length (JS.toString36 t1))) as Hpow.
    { rewrite <- Z.pow_succ_r by lia. apply Z.pow_le_mono_r; lia. }
    assert (1 <= 36 ^ Z.of_nat (String.length (JS.toString36 t2)))
      by (apply Z.lt_pred_le, Z.pow_pos_nonneg; lia).
    assert (String.length (JS.toString36 t2) <> 0%nat)
      by (by destruct (JS.toString36 t2)).
    assert (36 <= 36 ^ Z.of_nat (String.length (JS.toString36 t2))).
    { change 36 with (36 ^ 1) at 1. apply Z.pow_le_mono_r; lia. }
    lia.
  - intros Hlen. unfold String.leb.
    rewrite (compare_val36 _ _ Hlen Hdig1 Hdig2), V1, V2.
    destruct (Z.compare_spec t1 t2); [done|done|lia].
Qed.

Lemma toString36_alnum (x : Z) :
  0 <= x -> forallb is_alnum (JS.chars_of (JS.toString36 x)) = true.
Proof.
  intros Hx. destruct (toString36_numeral x Hx) as (_ & Hdig & _).
  rewrite forallb_forall in *. eauto using digit36_is_alnum.
Qed.

End Radix36.

(** ** Identifiers and stored names *)

Lemma generateCustomID_alnum (rt : runtime) (length : nat) :
  (0 <= now rt)%Z ->
  forallb is_alnum (JS.chars_of (generateCustomID rt length)) = true.
Proof.
  intros Hnow. unfold generateCustomID.
  rewrite chars_of_app, forallb_app, toString36_alnum, andb_true_r by done.
  apply forallb_forall. intros c Hc%list_elem_of_In.
  pose proof (random_loop_alphabet (random rt) length 0) as Hall.
  rewrite Forall_forall in Hall. rewrite is_alnum_chars.
  by apply bool_decide_eq_true, Hall.
Qed.

Lemma alnum_no_dash (s : string) :
  forallb is_alnum (JS.chars_of s) = true -> "-"%char ∉ JS.chars_of s.
Proof.
  intros Hall Hin%list_elem_of_In. rewrite forallb_forall in Hall.
  by specialize (Hall _ Hin).
Qed.

Lemma drop_app (s t : string) : JS.drop (String.length s) (s +:+ t) = t.
Proof. induction s as [|c s IH]; [by destruct t|]. by rewrite str_app_cons. Qed.

Lemma split_first_app (c : ascii) (s t : string) :
  c ∉ JS.chars_of s -> JS.split_first c (s +:+ String c t) = Some (s, t).
Proof.
  induction s as [|a s IH]; intros Hnotin.
  - rewrite str_app_nil_l. simpl. by rewrite Ascii.eqb_refl.
  - rewrite str_app_cons. simpl in *. apply not_elem_of_cons in Hnotin as [Hne Hs].
    destruct (Ascii.eqb_spec a c) as [->|_]; [done|]. by rewrite IH.
Qed.


Lemma sample_runtime_in_range : random_in_range sample_runtime.
Proof.
  intros i. unfold Qle, Qlt. simpl.
  pose proof (Nat.mod_upper_bound i 5). lia.
Defined.


(** C10.  With the clock at or after the epoch, cutting a stored name at
    its first ['-'] gives back the identifier on the left and the sanitised
    original name on the right. *)
Theorem filename_splits_at_first_dash (rt : runtime) (file : upload_file) :
  (0 <= now rt)%Z ->
  ("-"%char ∉ JS.chars_of (generateCustomID_default rt))
  /\ JS.split_first "-" (filename rt file)
     = Some (generateCustomID_default rt, sanitize (originalname file)).
Proof.
  intros Hnow.
  assert ("-"%char ∉ JS.chars_of (generateCustomID_default rt)) as Hdash
    by (by apply alnum_no_dash, generateCustomID_alnum).
  split; [done|]. unfold filename.
  change ("-" +:+ sanitize (originalname file))
    with (String "-" (sanitize (originalname file))).
  by apply split_first_app.
Qed.

Lemma filename_splits_at_first_dash_witness :
  (0 <= now sample_runtime)%Z
  /\ JS.split_first "-"
       (filename sample_runtime (UploadFile "my-report v2.pdf" "application/pdf"))
     = Some (generateCustomID_default sample_runtime, "my-report_v2.pdf").
Proof.
  split; [by compute|].
  apply (filename_splits_at_first_dash sample_runtime
           (UploadFile "my-report v2.pdf" "application/pdf")).
  by compute.
Defined.

(** C9.  Two identifiers made with the clock at [t1] and then at [t2 >= t1]:
    the text after the random part reads back, as a base-36 number, as [t1]
    and as [t2], so the second suffix is not below the first; and for clock
    readings at or after the epoch the second suffix is at least as long as
    the first and, when equally long, not below it as a string either. *)
Theorem timestamp_suffix_monotone (rt1 rt2 : runtime) (length1 length2 : nat) :
  random_in_range rt1 -> random_in_range rt2 -> (now rt1 <= now rt2)%Z ->
  let suffix1 := JS.drop length1 (generateCustomID rt1 length1) in
  let suffix2 := JS.drop length2 (generateCustomID rt2 length2) in
  (exists v1 v2 : Z,
     JS.parseInt36 suffix1 = Some v1 /\ JS.parseInt36 suffix2 = Some v2
     /\ (v1 <= v2)%Z)
  /\ ((0 <= now rt1)%Z ->
      String.length suffix1 <= String.length suffix2
      /\ (String.length suffix1 = String.length suffix2 ->
          String.leb suffix1 suffix2 = true)).
Proof.
  intros Hrnd1 Hrnd2 Hle.
  assert (forall rt length, random_in_range rt ->
            JS.drop length (generateCustomID rt length) = JS.toString36 (now rt))
    as Hsuffix.
  { intros rt length Hrnd. unfold generateCustomID.
    destruct (random_loop_exact (random rt) length 0 Hrnd) as [Hlen _].
    rewrite <- Hlen at 1. apply drop_app. }
  cbn zeta. rewrite !Hsuffix by done. split.
  - exists (now rt1), (now rt2). by rewrite !parseInt36_toString36.
  - intros Hnow. by apply toString36_shortlex.
Qed.

Lemma timestamp_suffix_monotone_witness :
  random_in_range sample_runtime
  /\ (now sample_runtime <= now (Runtime (random sample_runtime) 1700000000042))%Z
  /\ exists v1 v2 : Z,
       JS.parseInt36 (JS.drop 8 (generateCustomID sample_runtime 8)) = Some v1
       /\ JS.parseInt36
            (JS.drop 8
               (generateCustomID (Runtime (random sample_runtime) 1700000000042) 8))
          = Some v2
       /\ (v1 <= v2)%Z.
Proof.
  split; [apply sample_runtime_in_range|]. split; [by compute|].
  apply (timestamp_suffix_monotone sample_runtime
           (Runtime (random sample_runtime) 1700000000042) 8 8);
    [apply sample_runtime_in_range | apply sample_runtime_in_range | by compute].
Defined.

(** ** Paths *)

Section PathFacts.

Lemma split_nonempty (s : string) : Path.split s <> [].
Proof.
  destruct s as [|c s]; [done|]. simpl.
  destruct (Ascii.eqb c "/"); [done|]. by destruct (Path.split s).
Qed.

Lemma split_cons (c : ascii) (s : string) :
  Path.split (String c s)
  = if Ascii.eqb c "/" then "" :: Path.split s
    else match Path.split s with
         | seg :: rest => String c seg :: rest
         | [] => [String c ""]
         end.
Proof. reflexivity. Qed.

(** Splitting distributes over a separator. *)
Lemma split_app_slash (a b : string) :
  Path.split (a +:+ String "/" b) = Path.split a ++ Path.split b.
Proof.
  induction a as [|c a IH].
  - by rewrite str_app_nil_l.
  - rewrite str_app_cons, !split_cons, IH.
    destruct (Ascii.eqb c "/"); [done|].
    pose proof (split_nonempty a). by destruct (Path.split a).
Qed.

Lemma split_slashfree (s : string) : Forall slashfree (Path.split s).
Proof.
  induction s as [|c s IH].
  - repeat constructor. unfold slashfree. simpl. apply not_elem_of_nil.
  - rewrite split_cons. destruct (Ascii.eqb_spec c "/") as [->|Hc].
    + constructor; [|done]. unfold slashfree. simpl. apply not_elem_of_nil.
    + destruct IH as [|seg rest Hseg Hrest].
      * repeat constructor. unfold slashfree. simpl.
        rewrite not_elem_of_cons. split; [done | apply not_elem_of_nil].
      * constructor; [|done]. unfold slashfree in *. simpl.
        rewrite not_elem_of_cons. by split.
Qed.

Lemma split_single (s : string) : slashfree s -> Path.split s = [s].
Proof.
  unfold slashfree. induction s as [|c s IH]; [done|]. simpl.
  rewrite not_elem_of_cons. intros [Hc Hs].
  destruct (Ascii.eqb_spec c "/") as [->|_]; [done|]. by rewrite IH.
Qed.

(** The characters of the components are characters of the path. *)
Lemma split_chars (P : ascii -> Prop) (s : string) :
  Forall P (JS.chars_of s) ->
  Forall (fun seg => Forall P (JS.chars_of seg)) (Path.split s).
Proof.
  induction s as [|c s IH]; intros Hall.
  - by repeat constructor.
  - simpl in Hall. apply Forall_cons in Hall as [Hc Hs]. specialize (IH Hs).
    rewrite split_cons. destruct (Ascii.eqb c "/").
    + constructor; [constructor | done].
    + destruct IH as [|seg rest Hseg Hrest].
      * by repeat constructor.
      * constructor; [by constructor | done].
Qed.

Lemma concat_cons2 (sep x y : string) (l : list string) :
  String.concat sep (x :: y :: l) = x +:+ sep +:+ String.concat sep (y :: l).
Proof. reflexivity. Qed.

Lemma split_concat (segs : list string) :
  Forall slashfree segs -> segs <> [] ->
  Path.split (String.concat "/" segs) = segs.
Proof.
  induction segs as [|x [|y l] IH]; intros Hall Hne; [done|..].
  - apply Forall_cons in Hall as [Hx _]. by apply split_single.
  - apply Forall_cons in Hall as [Hx Hl]. rewrite concat_cons2.
    change ("/" +:+ String.concat "/" (y :: l))
      with (String "/" (String.concat "/" (y :: l))).
    rewrite split_app_slash, IH, split_single by done. done.
Qed.

Lemma concat_chars (P : ascii -> Prop) (segs : list string) :
  P "/"%char -> Forall (fun seg => Forall P (JS.chars_of seg)) segs ->
  Forall P (JS.chars_of (String.concat "/" segs)).
Proof.
  intros Hsep. induction segs as [|x [|y l] IH]; intros Hall.
  - constructor.
  - by apply Forall_cons in Hall as [Hx _].
  - apply Forall_cons in Hall as [Hx Hl]. rewrite concat_cons2.
    rewrite !chars_of_app. apply Forall_app. split; [done|].
    apply Forall_app. split; [by repeat constructor | by apply IH].
Qed.

(** *** [normalizeString] *)

Lemma normalizeString_app (f : bool) (l1 l2 res : list string) :
  Path.normalizeString f (l1 ++ l2) res
  = Path.normalizeString f l2 (rev (Path.normalizeString f l1 res)).
Proof.
  revert res. induction l1 as [|seg l1 IH]; intros res; simpl.
  - by rewrite rev_involutive.
  - repeat case_match; by rewrite IH.
Qed.

(** Every component kept comes from the input, from the stack, or is a
    [..] kept above the root. *)
Lemma normalizeString_Forall (Q : string -> Prop) (f : bool)
    (segs res : list string) :
  Q ".." -> Forall Q segs -> Forall Q res ->
  Forall Q (Path.normalizeString f segs res).
Proof.
  intros Hup. revert res. induction segs as [|seg segs IH];
    intros res Hsegs Hres; simpl.
  - by apply Forall_rev.
  - apply Forall_cons in Hsegs as [Hseg Hsegs].
    repeat case_match; subst; apply IH; try done;
      repeat (apply Forall_cons; split); try done;
      by apply Forall_cons in Hres as [? ?].
Qed.

(** Below the root no [..] is kept: the result is made of ordinary
    components. *)
Lemma normalizeString_ordinary (segs res : list string) :
  Forall ordinary res -> Forall ordinary (Path.normalizeString false segs res).
Proof.
  revert res. induction segs as [|seg segs IH]; intros res Hres; simpl.
  - by apply Forall_rev.
  - destruct (String.eqb_spec seg "") as [->|Hne]; [by apply IH|].
    destruct (String.eqb_spec seg ".") as [->|Hdot]; [by apply IH|]. simpl.
    destruct (String.eqb_spec seg "..") as [->|Hup].
    + destruct res as [|top res']; [by apply IH|].
      apply Forall_cons in Hres as [Htop Hres'].
      destruct (String.eqb_spec top ".."); by apply IH; try constructor.
    + apply IH. by constructor.
Qed.

(** Ordinary components are simply pushed. *)
Lemma normalizeString_push (f : bool) (segs res : list string) :
  Forall ordinary segs -> Path.normalizeString f segs res = rev res ++ segs.
Proof.
  revert res. induction segs as [|seg segs IH]; intros res Hsegs; simpl.
  - by rewrite app_nil_r.
  - apply Forall_cons in Hsegs as [(Hne & Hdot & Hup) Hsegs].
    destruct (String.eqb_spec seg "") as [|_]; [done|].
    destruct (String.eqb_spec seg ".") as [|_]; [done|].
    destruct (String.eqb_spec seg "..") as [|_]; [done|]. simpl.
    rewrite IH by done. simpl. by rewrite <- app_assoc.
Qed.

(** *** [normalize] and [join] on absolute paths *)

Lemma isAbsolute_cons (p : string) :
  Path.isAbsolute p = true -> exists q, p = String "/" q.
Proof.
  destruct p as [|c q]; [done|]. simpl.
  destruct (Ascii.eqb_spec c "/") as [->|Hc]; [eauto|].
  destruct c as [[] [] [] [] [] [] [] []]; done.
Qed.

Lemma concat_eq_empty (segs : list string) :
  Forall ordinary segs -> String.concat "/" segs = "" -> segs = [].
Proof.
  destruct segs as [|x [|y l]]; [done|..]; intros Hall Heq.
  - apply Forall_cons in Hall as [(Hne & _) _]. done.
  - rewrite concat_cons2 in Heq. apply Forall_cons in Hall as [(Hne & _) _].
    by destruct x.
Qed.

(** The shape of [normalize] on an absolute path, in terms of the
    components that [normalizeString] keeps. *)
Lemma normalize_absolute (p : string) :
  Path.isAbsolute p = true ->
  let segs := Path.normalizeString false (Path.split p) [] in
  Path.normalize p
  = if decide (segs = []) then "/"
    else String "/" (String.concat "/" segs)
           +:+ (if Path.trailingSeparator p then "/" else "").
Proof.
  intros Habs. cbn zeta. unfold Path.normalize. rewrite Habs.
  destruct (isAbsolute_cons p Habs) as [q ->].
  change (String.eqb (String "/" q) "") with false. cbn [negb].
  pose proof (normalizeString_ordinary (Path.split (String "/" q)) []
                (Forall_nil_2 _)) as Hord.
  destruct (String.eqb_spec
              (String.concat "/"
                 (Path.normalizeString false (Path.split (String "/" q)) []))
              "") as [Hempty|Hne].
  - apply concat_eq_empty in Hempty; [|done]. by rewrite Hempty, decide_True.
  - rewrite decide_False; [done|]. intros Heq. by rewrite Heq in Hne.
Qed.

Lemma isAbsolute_normalize (p : string) :
  Path.isAbsolute p = true -> Path.isAbsolute (Path.normalize p) = true.
Proof.
  intros Habs. rewrite normalize_absolute by done. cbn zeta. by case_decide.
Qed.

(** The kernel finds a normalised absolute path where its components say. *)
Lemma resolve_normalize (p : string) :
  Path.isAbsolute p = true ->
  Fs.resolve (Path.normalize p) = Path.normalizeString false (Path.split p) [].
Proof.
  intros Habs. rewrite normalize_absolute by done. cbn zeta.
  set (segs := Path.normalizeString false (Path.split p) []).
  assert (Forall ordinary segs) as Hord
    by (apply normalizeString_ordinary; constructor).
  assert (Forall slashfree segs) as Hfree.
  { apply normalizeString_Forall; [|apply split_slashfree|constructor].
    unfold slashfree. simpl. rewrite !not_elem_of_cons.
    repeat split; try done. apply not_elem_of_nil. }
  case_decide as Hsegs; [by rewrite Hsegs|]. unfold Fs.resolve.
  destruct (Path.trailingSeparator p).
  - rewrite str_app_cons.
    change (String.concat "/" segs +:+ "/")
      with (String.concat "/" segs +:+ String "/" "").
    rewrite split_cons, split_app_slash, split_concat by done. simpl.
    rewrite normalizeString_app, (normalizeString_push _ segs) by done.
    simpl. by rewrite rev_involutive.
  - rewrite str_app_nil_r, split_cons, split_concat by done. simpl.
    by rewrite normalizeString_push.
Qed.

Lemma join2 (a b : string) :
  a <> "" -> b <> "" -> Path.join [a; b] = Path.normalize (a +:+ String "/" b).
Proof.
  intros Ha Hb. unfold Path.join. simpl.
  destruct (String.eqb_spec a "") as [|_]; [done|].
  by destruct (String.eqb_spec b "") as [|_].
Qed.

Lemma isAbsolute_app (a b : string) :
  Path.isAbsolute a = true -> Path.isAbsolute (a +:+ b) = true.
Proof. intros Ha. by destruct (isAbsolute_cons a Ha) as [q ->]. Qed.

Lemma isAbsolute_join (a b : string) :
  Path.isAbsolute a = true -> b <> "" ->
  Path.isAbsolute (Path.join [a; b]) = true.
Proof.
  intros Ha Hb. rewrite join2; [|by destruct a|done].
  by apply isAbsolute_normalize, isAbsolute_app.
Qed.

(** Joining a name onto an absolute directory: the name's components are
    applied, in order, to the directory's own components. *)
Lemma resolve_join (a b : string) :
  Path.isAbsolute a = true -> b <> "" ->
  Fs.resolve (Path.join [a; b])
  = Path.normalizeString false (Path.split b) (rev (Fs.resolve a)).
Proof.
  intros Ha Hb. rewrite join2; [|by destruct a|done].
  rewrite resolve_normalize by by apply isAbsolute_app.
  by rewrite split_app_slash, normalizeString_app.
Qed.

(** *** Trailing separators *)

Lemma trailingSeparator_app (a b : string) :
  b <> "" -> Path.trailingSeparator (a +:+ b) = Path.trailingSeparator b.
Proof.
  intros Hb. induction a as [|c a IH]; [done|].
  rewrite str_app_cons. cbn [Path.trailingSeparator].
  destruct (a +:+ b) eqn:Hab; [by destruct a, b|]. done.
Qed.

Lemma trailingSeparator_slashfree (s : string) :
  slashfree s -> Path.trailingSeparator s = false.
Proof.
  unfold slashfree. induction s as [|c s IH]; [done|]. simpl.
  rewrite not_elem_of_cons. intros [Hc Hs]. destruct s; [|by apply IH].
  by destruct (Ascii.eqb_spec c "/").
Qed.

Lemma trailingSeparator_concat (segs : list string) :
  Forall ordinary segs -> Forall slashfree segs ->
  Path.trailingSeparator (String.concat "/" segs) = false.
Proof.
  induction segs as [|x [|y l] IH]; intros Hord Hfree; [done|..].
  - apply Forall_cons in Hfree as [Hx _]. by apply trailingSeparator_slashfree.
  - apply Forall_cons in Hord as [_ Hord]. apply Forall_cons in Hfree as [_ Hfree].
    rewrite concat_cons2, !trailingSeparator_app; [by apply IH|..].
    + apply Forall_cons in Hord as [(Hy & _) _]. destruct l; [done|].
      rewrite concat_cons2. by destruct y.
    + done.
Qed.

(** Normalising keeps or drops the trailing separator with the path,
    the root directory aside. *)
Lemma trailingSeparator_normalize (p : string) :
  Path.isAbsolute p = true ->
  Path.normalizeString false (Path.split p) [] <> [] ->
  Path.trailingSeparator (Path.normalize p) = Path.trailingSeparator p.
Proof.
  intros Habs Hsegs. rewrite normalize_absolute by done. cbn zeta.
  rewrite decide_False by done.
  set (segs := Path.normalizeString false (Path.split p) []) in *.
  assert (Forall ordinary segs) as Hord
    by (apply normalizeString_ordinary; constructor).
  assert (Forall slashfree segs) as Hfree.
  { apply normalizeString_Forall; [|apply split_slashfree|constructor].
    unfold slashfree. simpl. rewrite !not_elem_of_cons.
    repeat split; try done. apply not_elem_of_nil. }
  destruct (Path.trailingSeparator p).
  - by rewrite trailingSeparator_app.
  - rewrite str_app_nil_r.
    change (String "/" (String.concat "/" segs))
      with ("/" +:+ String.concat "/" segs).
    rewrite trailingSeparator_app; [by apply trailingSeparator_concat|].
    intros Hempty. by apply concat_eq_empty in Hempty.
Qed.

(** *** Characters *)

Lemma normalize_chars (P : ascii -> Prop) (p : string) :
  P "/"%char -> P "."%char -> Forall P (JS.chars_of p) ->
  Forall P (JS.chars_of (Path.normalize p)).
Proof.
  intros Hsep Hdot Hp. unfold Path.normalize.
  assert (Forall P
            (JS.chars_of
               (String.concat "/"
                  (Path.normalizeString (negb (Path.isAbsolute p))
                     (Path.split p) [])))) as Hbody.
  { apply concat_chars; [done|].
    apply normalizeString_Forall;
      [by repeat constructor | by apply split_chars | constructor]. }
  repeat case_match; rewrite ?chars_of_app; repeat apply Forall_app_2;
    by repeat constructor.
Qed.

Lemma join_chars (P : ascii -> Prop) (args : list string) :
  P "/"%char -> P "."%char ->
  Forall (fun a => Forall P (JS.chars_of a)) args ->
  Forall P (JS.chars_of (Path.join args)).
Proof.
  intros Hsep Hdot Hargs. unfold Path.join.
  assert (Forall (fun a => Forall P (JS.chars_of a))
            (List.filter (fun a => negb (String.eqb a "")) args)) as Hparts.
  { rewrite Forall_forall in *. intros a Ha%list_elem_of_In.
    apply filter_In in Ha as [Ha _]. by apply Hargs, list_elem_of_In. }
  destruct (List.filter _ args) as [|x l]; [by repeat constructor|].
  by apply normalize_chars, concat_chars.
Qed.

Lemma has_nul_Forall (p : string) :
  Fs.has_nul p = false <-> Forall (fun c => c <> "000"%char) (JS.chars_of p).
Proof.
  unfold Fs.has_nul. induction (JS.chars_of p) as [|c l IH]; cbn [existsb].
  - split; [constructor | done].
  - rewrite orb_false_iff, Forall_cons, IH.
    destruct (Ascii.eqb_spec "000" c) as [<-|Hne].
    + split; [by intros [] | by intros [? _]].
    + split; intros [? ?]; split; first [done | by intros ->].
Qed.

Lemma has_nul_join (a b : string) :
  Fs.has_nul a = false -> Fs.has_nul b = false ->
  Fs.has_nul (Path.join [a; b]) = false.
Proof.
  rewrite !has_nul_Forall. intros Ha Hb.
  apply join_chars; [done | done | by repeat constructor].
Qed.

End PathFacts.

(** ** The storage root and the names stored in it *)

Section StorageRoot.

Variable __dirname : string.
Hypothesis Hdir : script_dir __dirname.

Lemma uploads_dir_absolute :
  Path.isAbsolute (Server.UPLOADS_DIR __dirname) = true.
Proof using Hdir. destruct Hdir. by apply isAbsolute_join. Qed.

Lemma uploads_dir_no_nul : Fs.has_nul (Server.UPLOADS_DIR __dirname) = false.
Proof using Hdir. destruct Hdir. by apply has_nul_join. Qed.

Lemma storage_root_eq :
  storage_root __dirname = Fs.resolve __dirname ++ ["uploads"].
Proof using Hdir.
  destruct Hdir. unfold storage_root, Server.UPLOADS_DIR.
  rewrite resolve_join by done.
  rewrite normalizeString_push, rev_involutive; [done|].
  by repeat constructor.
Qed.

(** Where the delete route and the upload storage look for a name. *)
Lemma resolve_in_uploads (name : string) :
  name <> "" ->
  Fs.resolve (Path.join [Server.UPLOADS_DIR __dirname; name])
  = Path.normalizeString false (Path.split name) (rev (storage_root __dirname)).
Proof using Hdir.
  intros Hname. by rewrite resolve_join; [| apply uploads_dir_absolute |].
Qed.

Lemma safe_segment_facts (name : string) :
  safe_segment name = true ->
  ordinary name /\ slashfree name /\ Fs.has_nul name = false.
Proof.
  unfold safe_segment. rewrite !andb_true_iff, !negb_true_iff.
  intros [[[Hne Hdot] Hup] Hchars]. split; [|split].
  - by destruct (String.eqb_spec name ""), (String.eqb_spec name "."),
      (String.eqb_spec name "..").
  - intros Hin%list_elem_of_In. rewrite forallb_forall in Hchars.
    specialize (Hchars _ Hin). by rewrite Ascii.eqb_refl in Hchars.
  - apply has_nul_Forall, Forall_forall. intros c Hin%list_elem_of_In ->.
    rewrite forallb_forall in Hchars. specialize (Hchars _ Hin).
    by rewrite Ascii.eqb_refl, andb_false_r in Hchars.
Qed.

(** A safe segment names an entry directly inside the storage root. *)
Lemma safe_segment_in_uploads (name : string) :
  safe_segment name = true ->
  let filePath := Path.join [Server.UPLOADS_DIR __dirname; name] in
  Fs.resolve filePath = storage_root __dirname ++ [name]
  /\ Path.trailingSeparator filePath = false
  /\ Fs.has_nul filePath = false.
Proof using Hdir.
  intros (Hord & Hfree & Hnul)%safe_segment_facts. cbn zeta.
  assert (name <> "") as Hne by apply Hord.
  assert (Fs.resolve (Path.join [Server.UPLOADS_DIR __dirname; name])
          = storage_root __dirname ++ [name]) as Hres.
  { rewrite resolve_in_uploads, split_single by done.
    rewrite normalizeString_push by (apply Forall_cons_2; [done | constructor]).
    by rewrite rev_involutive. }
  split; [done|]. split; [|apply has_nul_join; [apply uploads_dir_no_nul|done]].
  pose proof uploads_dir_absolute as Habs.
  assert (Server.UPLOADS_DIR __dirname <> "") as Hroot
    by (intros Heq; by rewrite Heq in Habs).
  rewrite (join2 _ _ Hroot Hne) in Hres |- *.
  rewrite trailingSeparator_normalize.
  - rewrite trailingSeparator_app by done.
    destruct name as [|c name']; [done|].
    change (String "/" (String c name')) with ("/" +:+ String c name').
    rewrite trailingSeparator_app by done.
    by apply trailingSeparator_slashfree.
  - by apply isAbsolute_app.
  - rewrite resolve_normalize in Hres by (by apply isAbsolute_app).
    rewrite Hres. by destruct (storage_root __dirname).
Qed.

Lemma inside_root_child (name : string) :
  inside_root __dirname (storage_root __dirname ++ [name]).
Proof.
  split; [by apply prefix_app_r|].
  intros Heq. apply (f_equal length) in Heq. rewrite length_app in Heq.
  simpl in Heq. lia.
Qed.

End StorageRoot.

(** ** The delete route *)

(** The route on a non-empty string: one [access], then one [unlink] if
    something is there, both on the joined path. *)
Lemma delete_route_string (__dirname name : string) (w : Fs.world) :
  name <> "" ->
  Fs.has_nul (Path.join [Server.UPLOADS_DIR __dirname; name]) = false ->
  let filePath := Path.join [Server.UPLOADS_DIR __dirname; name] in
  Server.delete_route __dirname (JString name) w
  = match Fs.stat (Fs.disk w) filePath with
    | inl _ =>
        (Json 404 false (Message "File not found"),
         Fs.World (Fs.disk w) (Fs.trace w ++ [Fs.Access filePath]))
    | inr Fs.Directory =>
        (Json 500 false (Message "Error deleting file"),
         Fs.World (Fs.disk w)
           (Fs.trace w ++ [Fs.Access filePath; Fs.Unlink filePath]))
    | inr (Fs.RegularFile _) =>
        (Json 200 true (Message "File deleted successfully"),
         Fs.World (delete (Fs.resolve filePath) (Fs.disk w))
           (Fs.trace w ++ [Fs.Access filePath; Fs.Unlink filePath]))
    end.
Proof.
  intros Hname Hnul. cbn zeta. unfold Server.delete_route. cbn [truthy].
  destruct (String.eqb_spec name "") as [|_]; [done|]. cbn [negb].
  rewrite Hnul.
  unfold mbind, fs_bind, mret, fs_ret, Fs.access, Fs.unlink, Fs.bind, Fs.ret,
    Fs.log.
  cbn [Fs.disk Fs.trace].
  destruct (Fs.stat (Fs.disk w) _) as [e|[size|]] eqn:Hstat;
    cbn [Fs.disk Fs.trace]; rewrite ?Hstat; by rewrite <- ?app_assoc.
Qed.

(** C7.  Without a name, or with the empty name, the route answers 400
    "File name is required" and hands the world back as it received it: no
    call on the file system was made and the disk is the same. *)
Theorem delete_missing_name (__dirname : string) (w : Fs.world) :
  Server.delete_route __dirname JUndefined w
  = (Json 400 false (Message "File name is required"), w)
  /\ Server.delete_route __dirname (JString "") w
     = (Json 400 false (Message "File name is required"), w).
Proof. by split. Qed.




(** C8.  A stored name present in the storage root, deleted twice in a row:
    the first call removes the file and answers 200 "File deleted
    successfully", the second finds nothing, answers 404 "File not found"
    (not 500) and leaves the disk as the first call left it. *)
Theorem delete_twice (__dirname name : string) (size : N) (w : Fs.world) :
  script_dir __dirname -> safe_segment name = true ->
  Fs.disk w !! (storage_root __dirname ++ [name]) = Some (Fs.RegularFile size) ->
  exists w1 w2 : Fs.world,
    Server.delete_route __dirname (JString name) w
    = (Json 200 true (Message "File deleted successfully"), w1)
    /\ Fs.disk w1 = delete (storage_root __dirname ++ [name]) (Fs.disk w)
    /\ Server.delete_route __dirname (JString name) w1
       = (Json 404 false (Message "File not found"), w2)
    /\ Fs.disk w2 = Fs.disk w1.
Proof.
  intros Hdir Hsafe Hfile.
  destruct (safe_segment_in_uploads __dirname Hdir name Hsafe)
    as (Hres & Htrail & Hnul).
  assert (name <> "") as Hname by (by intros ->).
  pose proof (fun w' => delete_route_string __dirname name w' Hname Hnul)
    as Hroute. cbn zeta in Hroute.
  assert (Fs.stat (Fs.disk w)
            (Path.join [Server.UPLOADS_DIR __dirname; name])
          = inr (Fs.RegularFile size)) as Hstat
    by (unfold Fs.stat; by rewrite Hres, Hfile, Htrail).
  eexists _, _. rewrite Hroute, Hstat. split; [done|]. cbn [Fs.disk].
  rewrite Hres. split; [done|].
  rewrite Hroute. unfold Fs.stat. cbn [Fs.disk].
  by rewrite Hres, lookup_delete_eq.
Qed.

Lemma delete_twice_witness :
  script_dir "/app"
  /\ safe_segment "Ab3dE6gHlq2k9x1c-report.pdf" = true
  /\ Fs.disk sample_world
       !! (storage_root "/app" ++ ["Ab3dE6gHlq2k9x1c-report.pdf"])
     = Some (Fs.RegularFile 2048)
  /\ exists w1 w2 : Fs.world,
       Server.delete_route "/app" (JString "Ab3dE6gHlq2k9x1c-report.pdf")
         sample_world
       = (Json 200 true (Message "File deleted successfully"), w1)
       /\ Fs.disk w1
          = delete (storage_root "/app" ++ ["Ab3dE6gHlq2k9x1c-report.pdf"])
              (Fs.disk sample_world)
       /\ Server.delete_route "/app" (JString "Ab3dE6gHlq2k9x1c-report.pdf") w1
          = (Json 404 false (Message "File not found"), w2)
       /\ Fs.disk w2 = Fs.disk w1.
Proof.
  split; [by compute|]. split; [by vm_compute|]. split; [by vm_compute|].
  apply (delete_twice "/app" "Ab3dE6gHlq2k9x1c-report.pdf" 2048 sample_world);
    by vm_compute.
Defined.

(** ** Stored names *)

Lemma toString36_in_class (x : Z) :
  forallb in_class (JS.chars_of (JS.toString36 x)) = true.
Proof.
  assert (forall y d, numeral36 y d -> forallb in_class (JS.chars_of d) = true)
    as Hnum.
  { intros y d (_ & Hdig & _). rewrite forallb_forall in *. intros c Hc.
    unfold in_class. by rewrite (digit36_is_alnum c (Hdig c Hc)). }
  destruct (Z.lt_ge_cases x 0) as [Hneg|Hpos].
  - destruct (toString36_negative x Hneg) as (d & -> & Hd).
    cbn [JS.chars_of forallb]. by rewrite (Hnum _ _ Hd).
  - eapply Hnum. by apply toString36_numeral.
Qed.

Lemma generateCustomID_in_class (rt : runtime) (length : nat) :
  forallb in_class (JS.chars_of (generateCustomID rt length)) = true.
Proof.
  unfold generateCustomID.
  rewrite chars_of_app, forallb_app, toString36_in_class, andb_true_r.
  apply forallb_forall. intros c Hc%list_elem_of_In.
  pose proof (random_loop_alphabet (random rt) length 0) as Hall.
  rewrite Forall_forall in Hall. unfold in_class. rewrite is_alnum_chars.
  by rewrite (bool_decide_eq_true_2 _ (Hall c Hc)).
Qed.

Lemma sanitize_chars (originalName : string) :
  forallb (fun c => in_class c || Ascii.eqb c "_")
    (JS.chars_of (sanitize originalName)) = true.
Proof.
  unfold sanitize. rewrite replace_all_chars. apply forallb_forall.
  intros c Hc%list_elem_of_In. apply list_elem_of_fmap in Hc as (c0 & -> & _).
  by destruct (in_class c0) eqn:Hclass; cbn [negb]; rewrite ?Hclass.
Qed.

Lemma filename_chars (rt : runtime) (file : upload_file) :
  forallb (fun c => in_class c || Ascii.eqb c "_")
    (JS.chars_of (filename rt file)) = true.
Proof.
  unfold filename, generateCustomID_default.
  rewrite !chars_of_app, !forallb_app, sanitize_chars, andb_true_r.
  pose proof (generateCustomID_in_class rt 8) as Hid.
  rewrite forallb_forall in *. intros c Hc. by rewrite (Hid c Hc).
Qed.

Lemma name_char_safe (c : ascii) :
  in_class c || Ascii.eqb c "_" = true ->
  negb (Ascii.eqb c "/") && negb (Ascii.eqb c "\") && negb (Ascii.eqb c "000")
  = true.
Proof. destruct c as [[] [] [] [] [] [] [] []]; by vm_compute. Qed.

Lemma filename_has_dash (rt : runtime) (file : upload_file) :
  "-"%char ∈ JS.chars_of (filename rt file).
Proof.
  unfold filename. rewrite !chars_of_app. apply elem_of_app. right.
  apply elem_of_app. left. simpl. by left.
Qed.

Lemma filename_safe_segment (rt : runtime) (file : upload_file) :
  safe_segment (filename rt file) = true.
Proof.
  pose proof (filename_has_dash rt file) as Hdash.
  pose proof (filename_chars rt file) as Hchars.
  unfold safe_segment. rewrite !andb_true_iff, !negb_true_iff.
  repeat split.
  1-3: match goal with |- String.eqb _ ?s = false =>
         destruct (String.eqb_spec (filename rt file) s) as [Heq|]; [|done]
       end;
       rewrite Heq in Hdash; simpl in Hdash;
       repeat (apply elem_of_cons in Hdash as [?|Hdash]; [done|]);
       by apply elem_of_nil in Hdash.
  - rewrite forallb_forall in *. intros c Hc. by apply name_char_safe, Hchars.
Qed.

(** C3.  Whatever the original name, the stored name is one safe path
    segment: it holds no separator, it is not a parent reference and
    splitting it yields no [..] component; joined onto the storage root it
    names an entry directly inside the root. *)
Theorem stored_name_is_safe_segment (rt : runtime) (file : upload_file) :
  let storedName := filename rt file in
  safe_segment storedName = true
  /\ ("/"%char ∉ JS.chars_of storedName)
  /\ ("\"%char ∉ JS.chars_of storedName)
  /\ Path.split storedName = [storedName]
  /\ (".." ∉ Path.split storedName)
  /\ forall __dirname : string,
       script_dir __dirname ->
       Fs.resolve (Path.join [Server.UPLOADS_DIR __dirname; storedName])
       = storage_root __dirname ++ [storedName]
       /\ inside_root __dirname
            (Fs.resolve (Path.join [Server.UPLOADS_DIR __dirname; storedName])).
Proof.
  cbn zeta. pose proof (filename_safe_segment rt file) as Hsafe.
  pose proof (safe_segment_facts _ Hsafe) as ((Hne & Hdot & Hup) & Hfree & Hnul).
  pose proof (filename_chars rt file) as Hchars.
  split; [done|]. split; [done|]. split.
  { intros Hin%list_elem_of_In. rewrite forallb_forall in Hchars.
    apply Hchars, name_char_safe in Hin. by vm_compute in Hin. }
  rewrite split_single by done. split; [done|]. split.
  { rewrite not_elem_of_cons. split; [done | apply not_elem_of_nil]. }
  intros __dirname Hdir.
  destruct (safe_segment_in_uploads __dirname Hdir _ Hsafe) as (-> & _).
  split; [done | apply inside_root_child].
Qed.

Lemma stored_name_is_safe_segment_witness :
  script_dir "/app"
  /\ Fs.resolve
       (Path.join
          [Server.UPLOADS_DIR "/app";
           filename sample_runtime (UploadFile "../../etc/passwd" "image/png")])
     = storage_root "/app"
         ++ [filename sample_runtime (UploadFile "../../etc/passwd" "image/png")].
Proof.
  split; [by compute|].
  by apply (stored_name_is_safe_segment sample_runtime
              (UploadFile "../../etc/passwd" "image/png")).
Defined.

(** ** The upload route *)

Lemma includes_spec (arr : list string) (x : string) :
  JS.includes arr x = true <-> x ∈ arr.
Proof.
  unfold JS.includes. rewrite existsb_exists. split.
  - intros (y & Hy & Heq). apply String.eqb_eq in Heq as ->.
    by apply list_elem_of_In.
  - intros Hin. exists x. split; [by apply list_elem_of_In|].
    apply String.eqb_refl.
Qed.

Lemma fileFilter_spec (file : upload_file) :
  Server.fileFilter file
  = if bool_decide (mimetype file ∈ Server.allowedTypes) then Multer.Include
    else Multer.Reject (Multer.Error "Unsupported file type").
Proof.
  unfold Server.fileFilter.
  destruct (JS.includes Server.allowedTypes (mimetype file)) eqn:Hinc.
  - apply includes_spec in Hinc. by rewrite bool_decide_eq_true_2.
  - rewrite bool_decide_eq_false_2; [done|].
    intros Hin%includes_spec. congruence.
Qed.

(** C5.  A part whose declared type is outside the allow-list is rejected
    by the filter with "Unsupported file type"; the route answers 400 and
    hands the world back untouched, so no file was created.  A declared
    type inside the list passes the filter, and the list holds the four
    baseline types. *)
Theorem upload_type_allow_list (__dirname : string) (at_boundary : bool)
    (rt : runtime) (fp : Multer.file_part) (w : Fs.world) :
  let file := UploadFile (Multer.part_filename fp) (Multer.part_mimetype fp) in
  (Multer.part_mimetype fp ∉ Server.allowedTypes ->
     Server.fileFilter file
     = Multer.Reject (Multer.Error "Unsupported file type")
     /\ (exists m : string,
           Server.upload_route __dirname at_boundary rt (Some fp) w
           = (Json 400 false (Message m), w))
     /\ (Multer.fieldname fp = "file" -> Multer.part_filename fp <> "" ->
         Server.upload_route __dirname at_boundary rt (Some fp) w
         = (Json 400 false (Message "Unsupported file type"), w)))
  /\ (Multer.part_mimetype fp ∈ Server.allowedTypes ->
        Server.fileFilter file = Multer.Include)
  /\ (forall t : string,
        t ∈ ["image/png"; "image/jpeg"; "image/jpg"; "application/pdf"] ->
        t ∈ Server.allowedTypes).
Proof.
  cbn zeta. split; [|split].
  - intros Hout.
    assert (Server.fileFilter
              (UploadFile (Multer.part_filename fp) (Multer.part_mimetype fp))
            = Multer.Reject (Multer.Error "Unsupported file type")) as Hfilter
      by (by rewrite fileFilter_spec, bool_decide_eq_false_2).
    split; [done|].
    unfold Server.upload_route, Multer.single, mbind, fs_bind, Fs.bind.
    cbn [Server.upload Multer.fileFilter]. rewrite Hfilter.
    destruct (String.eqb_spec (Multer.part_filename fp) "") as [Hname|Hname].
    { split; [by eexists|]. by intros _ ?. }
    destruct (String.eqb_spec (Multer.fieldname fp) "file") as [Hfield|Hfield].
    + split; [by eexists|]. done.
    + split; [by eexists|]. by intros ?.
  - intros Hin. by rewrite fileFilter_spec, bool_decide_eq_true_2.
  - intros t Ht. unfold Server.allowedTypes.
    repeat (apply elem_of_cons in Ht as [->|Ht]; [set_solver|]).
    by apply elem_of_nil in Ht.
Qed.

Lemma upload_type_allow_list_witness :
  (("text/html" ∉ Server.allowedTypes)
   /\ Server.upload_route "/app" false sample_runtime
        (Some (Multer.FilePart "file" "index.html" "text/html" 120)) sample_world
      = (Json 400 false (Message "Unsupported file type"), sample_world))
  /\ (("application/pdf" ∈ Server.allowedTypes)
      /\ Server.fileFilter (UploadFile "report.pdf" "application/pdf")
         = Multer.Include).
Proof.
  assert ("text/html" ∉ Server.allowedTypes) as Hout.
  { intros Hin. unfold Server.allowedTypes in Hin.
    repeat (apply elem_of_cons in Hin as [Heq|Hin]; [discriminate Heq|]).
    by apply elem_of_nil in Hin. }
  assert ("application/pdf" ∈ Server.allowedTypes) as Hin
    by (unfold Server.allowedTypes; do 3 apply list_elem_of_further;
        apply list_elem_of_here).
  split.
  - split; [exact Hout|].
    destruct (upload_type_allow_list "/app" false sample_runtime
                (Multer.FilePart "file" "index.html" "text/html" 120)
                sample_world) as [Hreject _].
    destruct (Hreject Hout) as (_ & _ & Hroute). by apply Hroute.
  - split; [exact Hin|].
    destruct (upload_type_allow_list "/app" false sample_runtime
                (Multer.FilePart "file" "report.pdf" "application/pdf" 120)
                sample_world) as (_ & Haccept & _).
    by apply Haccept.
Defined.



(** ** The older variants *)

(** [src/unnamed/part_000] filters on its four types the same way. *)
Remark part000_fileFilter (file : upload_file) :
  Part000.fileFilter file
  = if bool_decide (mimetype file ∈ Part000.allowedTypes) then Multer.Include
    else Multer.Reject
           (Multer.Error
              "Invalid file type. Only PNG, JPEG, JPG, and PDF allowed.").
Proof.
  unfold Part000.fileFilter.
  destruct (JS.includes Part000.allowedTypes (mimetype file)) eqn:Hinc.
  - apply includes_spec in Hinc. by rewrite bool_decide_eq_true_2.
  - rewrite bool_decide_eq_false_2; [done|].
    intros Hin%includes_spec. congruence.
Qed.

(** [src/unnamed/part_001] configures neither a filter nor a ceiling: every
    declared type passes and no body is ever cut. *)
Remark part001_accepts_everything (__dirname : string) (at_boundary : bool)
    (file : upload_file) (size : N) :
  Multer.fileFilter (Part001.upload __dirname) file = Multer.Include
  /\ Multer.truncates at_boundary (Multer.fileSize (Part001.upload __dirname))
       size = false.
Proof. by split. Qed.

(** [src/unnamed/part_001] uses the original name as it is handed over:
    were a separator to reach it, it would stay in the stored name. *)
Remark part001_filename_unsanitized :
  Part001.filename sample_runtime (UploadFile "a/b.png" "image/png")
  = generateCustomID_default sample_runtime +:+ "-a/b.png"
  /\ safe_segment
       (Part001.filename sample_runtime (UploadFile "a/b.png" "image/png"))
     = false.
Proof. split; by vm_compute. Qed.

(** ** Where the statements above stop *)

(** A clock set before the epoch puts a sign into the identifier: the
    assumption [0 <= now] of the statements on identifiers is needed. *)
Remark generateCustomID_before_epoch :
  generateCustomID (Runtime (random sample_runtime) (-1)) 8 = "AMYlxAMY-1".
Proof. by vm_compute. Qed.

(** Across a change in the number of digits the longer suffix is the later
    one, but plain string comparison says otherwise. *)
Remark suffix_order_across_lengths :
  JS.toString36 35 = "z" /\ JS.toString36 36 = "10"
  /\ String.leb (JS.toString36 35) (JS.toString36 36) = false.
Proof. by vm_compute. Qed.

(** Suffixes have eight digits from 1972 to 2059. *)
Remark suffix_has_eight_digits :
  String.length (JS.toString36 (36 ^ 7)) = 8
  /\ String.length (JS.toString36 (36 ^ 8 - 1)) = 8
  /\ String.length (JS.toString36 (36 ^ 8)) = 9.
Proof. by vm_compute. Qed.

(** * More of the program *)

(** ** The sanitiser and the identifiers, further *)

Lemma replace_all_app (matches : ascii -> bool) (r a b : string) :
  JS.replace_all matches r (a +:+ b)
  = JS.replace_all matches r a +:+ JS.replace_all matches r b.
Proof.
  induction a as [|c a IH]; [done|]. rewrite str_app_cons. simpl.
  destruct (matches c); by rewrite IH, ?str_app_assoc, ?str_app_cons.
Qed.

Lemma sanitize_chars_of (s : string) :
  JS.chars_of (sanitize s)
  = (fun c => if in_class c then c else "_"%char) <$> JS.chars_of s.
Proof.
  unfold sanitize. rewrite replace_all_chars.
  apply list_fmap_ext. intros _ c _. by destruct (in_class c).
Qed.

Lemma sanitize_length (s : string) :
  String.length (sanitize s) = String.length s.
Proof. by rewrite <- !chars_of_length, sanitize_chars_of, length_fmap. Qed.

Lemma underscore_not_in_class : in_class "_" = false.
Proof. reflexivity. Qed.

(** X1.  Sanitising works piece by piece and settles after one pass: the
    sanitised form of a concatenation is the concatenation of the sanitised
    forms, sanitising twice is sanitising once, and the names it leaves
    alone are exactly those made of characters of the class and
    underscores. *)
Theorem sanitize_pieces_and_fixpoints (a b : string) :
  sanitize (a +:+ b) = sanitize a +:+ sanitize b
  /\ sanitize (sanitize a) = sanitize a
  /\ (sanitize a = a
      <-> forallb (fun c => in_class c || Ascii.eqb c "_") (JS.chars_of a)
          = true).
Proof.
  split; [apply replace_all_app|]. split.
  - apply chars_of_inj. rewrite !sanitize_chars_of, <- list_fmap_compose.
    apply list_fmap_ext. intros _ c _. simpl.
    destruct (in_class c) eqn:Hc; [by rewrite Hc | by rewrite underscore_not_in_class].
  - split.
    + intros Heq. rewrite <- Heq. apply sanitize_chars.
    + intros Hall. apply chars_of_inj. rewrite sanitize_chars_of.
      rewrite forallb_forall in Hall.
      rewrite <- (list_fmap_id (JS.chars_of a)) at 2.
      apply list_fmap_ext. intros _ c Hc%list_elem_of_lookup_2%list_elem_of_In.
      specialize (Hall c Hc). simpl.
      destruct (in_class c); [done|]. simpl in Hall.
      by apply Ascii.eqb_eq in Hall.
Qed.

Lemma str_app_inj_length (a1 b1 a2 b2 : string) :
  String.length a1 = String.length a2 ->
  a1 +:+ b1 = a2 +:+ b2 -> a1 = a2 /\ b1 = b2.
Proof.
  revert a2. induction a1 as [|c a1 IH]; intros [|d a2] Hlen Heq;
    try discriminate Hlen; [done|].
  rewrite !str_app_cons in Heq. injection Hlen as Hlen. injection Heq as -> Heq.
  destruct (IH a2 Hlen Heq) as [-> ->]. done.
Qed.

Lemma toString36_inj (x y : Z) : JS.toString36 x = JS.toString36 y -> x = y.
Proof.
  intros Heq. pose proof (parseInt36_toString36 x) as Hx.
  rewrite Heq, parseInt36_toString36 in Hx. by injection Hx.
Qed.

Lemma generateCustomID_eq_inv (rt1 rt2 : runtime) (length : nat) :
  random_in_range rt1 -> random_in_range rt2 ->
  generateCustomID rt1 length = generateCustomID rt2 length ->
  random_loop (random rt1) 0 length "" = random_loop (random rt2) 0 length ""
  /\ now rt1 = now rt2.
Proof.
  intros Hrnd1 Hrnd2.
  destruct (random_loop_exact (random rt1) length 0 Hrnd1) as [Hlen1 _].
  destruct (random_loop_exact (random rt2) length 0 Hrnd2) as [Hlen2 _].
  unfold generateCustomID. intros Heq.
  apply str_app_inj_length in Heq as [Hpart Hts]; [|congruence].
  split; [done | by apply toString36_inj].
Qed.

(** X2.  Two identifiers of the same requested length, made under the
    contract of [Math.random], are equal exactly when their random parts
    are equal and the clock read the same; different clock readings always
    give different identifiers. *)
Theorem generateCustomID_collision (rt1 rt2 : runtime) (length : nat) :
  random_in_range rt1 -> random_in_range rt2 ->
  (generateCustomID rt1 length = generateCustomID rt2 length
   <-> random_loop (random rt1) 0 length "" = random_loop (random rt2) 0 length ""
       /\ now rt1 = now rt2)
  /\ (now rt1 <> now rt2 ->
      generateCustomID rt1 length <> generateCustomID rt2 length).
Proof.
  intros Hrnd1 Hrnd2.
  pose proof (generateCustomID_eq_inv rt1 rt2 length Hrnd1 Hrnd2) as Hinv.
  split.
  - split; [done|]. unfold generateCustomID. by intros [-> ->].
  - intros Hne Heq. by apply Hinv in Heq as [_ ?].
Qed.

Lemma generateCustomID_collision_witness :
  random_in_range sample_runtime
  /\ random_in_range (Runtime (random sample_runtime) 1700000000001)
  /\ now sample_runtime <> now (Runtime (random sample_runtime) 1700000000001)
  /\ generateCustomID sample_runtime 8
     <> generateCustomID (Runtime (random sample_runtime) 1700000000001) 8.
Proof.
  split; [apply sample_runtime_in_range|].
  split; [apply sample_runtime_in_range|]. split; [discriminate|].
  apply (generateCustomID_collision sample_runtime
           (Runtime (random sample_runtime) 1700000000001) 8);
    [apply sample_runtime_in_range | apply sample_runtime_in_range | discriminate].
Defined.

Lemma numeral36_length (x : Z) (d : string) (n : nat) :
  (36 ^ Z.of_nat n <= x < 36 ^ Z.of_nat (S n))%Z -> numeral36 x d ->
  String.length d = S n.
Proof.
  intros [Hlo Hhi] (_ & _ & _ & Hup & Hlow).
  assert (0 < 36 ^ Z.of_nat n)%Z by (apply Z.pow_pos_nonneg; lia).
  rewrite Z.max_l in Hlow by lia.
  destruct (Nat.lt_trichotomy (String.length d) (S n)) as [Hlt|[Heq|Hgt]];
    [exfalso | done | exfalso].
  - assert (36 ^ Z.of_nat (String.length d) <= 36 ^ Z.of_nat n)%Z
      by (apply Z.pow_le_mono_r; lia). lia.
  - assert (36 * 36 ^ Z.of_nat (S n) <= 36 ^ Z.of_nat (String.length d))%Z.
    { rewrite <- Z.pow_succ_r by lia. apply Z.pow_le_mono_r; lia. }
    lia.
Qed.

(** X3.  With the clock between 36^7 and 36^8 milliseconds after the epoch
    (the years 1972 to 2059) the time part has eight digits: an identifier
    is [length + 8] characters long, and a stored name is seventeen
    characters longer than the original name. *)
Theorem identifier_and_stored_name_length
    (rt : runtime) (length : nat) (file : upload_file) :
  random_in_range rt -> (36 ^ 7 <= now rt < 36 ^ 8)%Z ->
  String.length (generateCustomID rt length) = length + 8
  /\ String.length (filename rt file) = 17 + String.length (originalname file).
Proof.
  intros Hrnd Hnow.
  assert (String.length (JS.toString36 (now rt)) = 8) as Hts.
  { apply (numeral36_length (now rt) _ 7); [done|].
    apply toString36_numeral. lia. }
  assert (forall n, String.length (generateCustomID rt n) = n + 8) as Hid.
  { intros n. unfold generateCustomID. rewrite str_length_app, Hts.
    by destruct (random_loop_exact (random rt) n 0 Hrnd) as [-> _]. }
  split; [done|]. unfold filename, generateCustomID_default.
  rewrite !str_length_app, Hid, sanitize_length. simpl. lia.
Qed.

Lemma identifier_and_stored_name_length_witness :
  random_in_range sample_runtime
  /\ (36 ^ 7 <= now sample_runtime < 36 ^ 8)%Z
  /\ String.length (generateCustomID sample_runtime 8) = 8 + 8
  /\ String.length (filename sample_runtime (UploadFile "a.png" "image/png"))
     = 17 + String.length "a.png".
Proof.
  split; [apply sample_runtime_in_range|]. split; [by compute|].
  apply (identifier_and_stored_name_length sample_runtime 8
           (UploadFile "a.png" "image/png"));
    [apply sample_runtime_in_range | by compute].
Defined.

(** X4.  With the clock at or after the epoch, two stored names are equal
    exactly when their identifiers are equal and their original names
    sanitise to the same text; uploads made at different clock readings
    never get the same stored name. *)
Theorem stored_names_equal_iff (rt1 rt2 : runtime) (f1 f2 : upload_file) :
  (0 <= now rt1)%Z -> (0 <= now rt2)%Z ->
  (filename rt1 f1 = filename rt2 f2
   <-> generateCustomID_default rt1 = generateCustomID_default rt2
       /\ sanitize (originalname f1) = sanitize (originalname f2))
  /\ (random_in_range rt1 -> random_in_range rt2 -> now rt1 <> now rt2 ->
      filename rt1 f1 <> filename rt2 f2).
Proof.
  intros Hnow1 Hnow2.
  assert (forall rt f, (0 <= now rt)%Z ->
            JS.split_first "-" (filename rt f)
            = Some (generateCustomID_default rt, sanitize (originalname f)))
    as Hcut.
  { intros rt f Hnow. unfold filename.
    change ("-" +:+ sanitize (originalname f))
      with (String "-" (sanitize (originalname f))).
    by apply split_first_app, alnum_no_dash, generateCustomID_alnum. }
  assert (filename rt1 f1 = filename rt2 f2 ->
          generateCustomID_default rt1 = generateCustomID_default rt2
          /\ sanitize (originalname f1) = sanitize (originalname f2)) as Hinv.
  { intros Heq. apply (f_equal (JS.split_first "-")) in Heq.
    rewrite !Hcut in Heq by done. by simplify_eq. }
  split.
  - split; [done|]. unfold filename. by intros [-> ->].
  - intros Hrnd1 Hrnd2 Hne Heq. apply Hinv in Heq as [Hid _].
    by apply generateCustomID_eq_inv in Hid as [_ ?].
Qed.

Lemma stored_names_equal_iff_witness :
  (0 <= now sample_runtime)%Z
  /\ (filename sample_runtime (UploadFile "a b.png" "image/png")
      = filename sample_runtime (UploadFile "a_b.png" "image/png")
      <-> generateCustomID_default sample_runtime
          = generateCustomID_default sample_runtime
          /\ sanitize "a b.png" = sanitize "a_b.png").
Proof.
  split; [by compute|].
  by apply (stored_names_equal_iff sample_runtime sample_runtime
              (UploadFile "a b.png" "image/png")
              (UploadFile "a_b.png" "image/png")).
Defined.

(** ** The delete route, further *)

Lemma delete_route_non_string
    (__dirname : string) (fileName : jsvalue) (w : Fs.world) :
  (forall s : string, fileName <> JString s) ->
  Server.delete_route __dirname fileName w
  = (if truthy fileName then Unhandled "ERR_INVALID_ARG_TYPE"
     else Json 400 false (Message "File name is required"),
     w).
Proof.
  intros Hnot. unfold Server.delete_route.
  destruct fileName as [| |b|q|s|]; try done.
  - by destruct b.
  - cbn [truthy]. by destruct (Qeq_bool q 0).
  - by destruct (Hnot s).
Qed.



(** X6.  The delete route changes the disk only when it answers 200, and
    then exactly by removing the regular file at the joined path; in every
    other case the disk is the one it was given.  It never adds an entry. *)
Theorem delete_changes_disk_only_on_success
    (__dirname : string) (fileName : jsvalue) (w : Fs.world) :
  let r := (Server.delete_route __dirname fileName w).1 in
  let w' := (Server.delete_route __dirname fileName w).2 in
  (r = Json 200 true (Message "File deleted successfully") ->
   exists (name : string) (size : N),
     fileName = JString name /\ name <> ""
     /\ Fs.disk w !! Fs.resolve (Path.join [Server.UPLOADS_DIR __dirname; name])
        = Some (Fs.RegularFile size)
     /\ Fs.disk w'
        = delete (Fs.resolve (Path.join [Server.UPLOADS_DIR __dirname; name]))
            (Fs.disk w))
  /\ (r <> Json 200 true (Message "File deleted successfully") ->
      Fs.disk w' = Fs.disk w)
  /\ Fs.disk w' ⊆ Fs.disk w.
Proof.
  cbn zeta. destruct fileName as [| |b|q|name|].
  1-4,6: rewrite delete_route_non_string by done;
         (split; [by case_match|]); by split.
  destruct (String.eqb_spec name "") as [->|Hname]; [by repeat split|].
  destruct (Fs.has_nul (Path.join [Server.UPLOADS_DIR __dirname; name]))
    eqn:Hnul.
  { unfold Server.delete_route. cbn [truthy].
    destruct (String.eqb_spec name "") as [|_]; [done|]. cbn [negb].
    rewrite Hnul. by repeat split. }
  rewrite (delete_route_string __dirname name w Hname Hnul). unfold Fs.stat.
  destruct (Fs.disk w !! Fs.resolve _) as [[size|]|] eqn:Hfile;
    [destruct (Path.trailingSeparator _)|..]; cbn [fst snd Fs.disk];
    (split; [try done|]); try (by split).
  - intros _. by exists name, size.
  - split; [done | apply delete_subseteq].
Qed.

Lemma delete_changes_disk_only_on_success_witness :
  (Server.delete_route "/app" (JString "Ab3dE6gHlq2k9x1c-report.pdf")
     sample_world).1
  = Json 200 true (Message "File deleted successfully")
  /\ exists (name : string) (size : N),
       JString "Ab3dE6gHlq2k9x1c-report.pdf" = JString name /\ name <> ""
       /\ Fs.disk sample_world
            !! Fs.resolve (Path.join [Server.UPLOADS_DIR "/app"; name])
          = Some (Fs.RegularFile size)
       /\ Fs.disk
            (Server.delete_route "/app" (JString "Ab3dE6gHlq2k9x1c-report.pdf")
               sample_world).2
          = delete (Fs.resolve (Path.join [Server.UPLOADS_DIR "/app"; name]))
              (Fs.disk sample_world).
Proof.
  assert ((Server.delete_route "/app" (JString "Ab3dE6gHlq2k9x1c-report.pdf")
             sample_world).1
          = Json 200 true (Message "File deleted successfully")) as Hreply
    by (by vm_compute).
  split; [exact Hreply|].
  destruct (delete_changes_disk_only_on_success "/app"
              (JString "Ab3dE6gHlq2k9x1c-report.pdf") sample_world)
    as [Hremoved _].
  exact (Hremoved Hreply).
Defined.

(** *** The delete route of the oldest variant *)

Lemma join3 (a b c : string) :
  a <> "" -> b <> "" -> c <> "" ->
  Path.join [a; b; c] = Path.normalize (a +:+ String "/" (b +:+ String "/" c)).
Proof.
  intros Ha Hb Hc. unfold Path.join. simpl.
  destruct (String.eqb_spec a "") as [|_]; [done|].
  destruct (String.eqb_spec b "") as [|_]; [done|].
  by destruct (String.eqb_spec c "") as [|_].
Qed.

(** Joining in one call or in two gives the same path. *)
Lemma join_uploads_twice (__dirname name : string) :
  Path.isAbsolute __dirname = true -> name <> "" ->
  Path.join [__dirname; "uploads"; name]
  = Path.join [Server.UPLOADS_DIR __dirname; name].
Proof.
  intros Habs Hname.
  assert (__dirname <> "") as Hdir by (by intros ->).
  assert (Path.isAbsolute (Server.UPLOADS_DIR __dirname) = true) as Hup
    by (by apply isAbsolute_join).
  assert (Server.UPLOADS_DIR __dirname <> "") as Hroot
    by (intros Heq; by rewrite Heq in Hup).
  rewrite join3, join2 by done.
  assert (forall a rest, rest <> "" ->
            Path.trailingSeparator (a +:+ String "/" rest)
            = Path.trailingSeparator rest) as Hslash.
  { intros a rest Hrest. rewrite trailingSeparator_app by done.
    change (String "/" rest) with ("/" +:+ rest).
    by apply trailingSeparator_app. }
  assert (Path.isAbsolute (__dirname +:+ String "/" ("uploads" +:+ String "/" name))
          = true) as Habs1 by (by apply isAbsolute_app).
  assert (Path.isAbsolute (Server.UPLOADS_DIR __dirname +:+ String "/" name) = true)
    as Habs2 by (by apply isAbsolute_app).
  rewrite (normalize_absolute _ Habs1), (normalize_absolute _ Habs2). cbn zeta.
  assert (Path.normalizeString false
            (Path.split (__dirname +:+ String "/" ("uploads" +:+ String "/" name))) []
          = Path.normalizeString false
              (Path.split (Server.UPLOADS_DIR __dirname +:+ String "/" name)) [])
    as ->.
  { rewrite !split_app_slash, app_assoc, <- (split_app_slash __dirname "uploads").
    rewrite (normalizeString_app false
               (Path.split (__dirname +:+ String "/" "uploads"))).
    rewrite (normalizeString_app false
               (Path.split (Server.UPLOADS_DIR __dirname))).
    do 2 f_equal. symmetry.
    change (Path.normalizeString false
              (Path.split (Server.UPLOADS_DIR __dirname)) [])
      with (Fs.resolve (Server.UPLOADS_DIR __dirname)).
    unfold Server.UPLOADS_DIR. rewrite join2 by done.
    apply resolve_normalize. by apply isAbsolute_app. }
  rewrite (Hslash __dirname), (Hslash "uploads"), (Hslash (Server.UPLOADS_DIR __dirname));
    [done | done | done | by destruct name].
Qed.

(** X7.  The delete route of [src/unnamed/part_001], which joins
    [__dirname], ["uploads"] and the name in one call, answers every
    request like the route of [src/server.js] and leaves the same world. *)
Theorem part001_delete_same_as_server
    (__dirname : string) (fileName : jsvalue) (w : Fs.world) :
  Path.isAbsolute __dirname = true ->
  Part001.delete_route __dirname fileName w
  = Server.delete_route __dirname fileName w.
Proof.
  intros Habs. unfold Part001.delete_route, Server.delete_route.
  destruct fileName as [| |b|q|name|]; try done.
  cbn [truthy]. destruct (String.eqb_spec name "") as [|Hname]; [done|].
  cbn [negb]. by rewrite join_uploads_twice.
Qed.

Lemma part001_delete_same_as_server_witness :
  Path.isAbsolute "/app" = true
  /\ Part001.delete_route "/app" (JString "../../etc/passwd") sample_world
     = Server.delete_route "/app" (JString "../../etc/passwd") sample_world.
Proof.
  split; [reflexivity|].
  by apply (part001_delete_same_as_server "/app" (JString "../../etc/passwd")
              sample_world).
Defined.

(** ** The upload route, further *)





(** X9.  What an answer of the upload route means.  Without a file part the
    answer is 400 "No file found in the request body" and nothing was
    done.  With one, the answer is either 200 with the URL of the stored
    name, and then the part came in the field [file] with an accepted type
    and at most 40 MiB and the disk holds it in full at the joined path, or
    a 400 with a message, and then the disk is as before or lacks that one
    place.  The route never leaves an error to Express. *)
Theorem upload_answers (__dirname : string) (at_boundary : bool)
    (rt : runtime) (part : option Multer.file_part) (w : Fs.world) :
  match part with
  | None =>
      Server.upload_route __dirname at_boundary rt None w
      = (Json 400 false (Message "No file found in the request body"), w)
  | Some fp =>
      let storedName :=
        filename rt
          (UploadFile (Multer.part_filename fp) (Multer.part_mimetype fp)) in
      let finalPath := Path.join [Server.UPLOADS_DIR __dirname; storedName] in
      let r := (Server.upload_route __dirname at_boundary rt (Some fp) w).1 in
      let w' := (Server.upload_route __dirname at_boundary rt (Some fp) w).2 in
      (r = Json 200 true (FileUrl ("/uploads/" +:+ storedName))
       /\ Multer.fieldname fp = "file"
       /\ Multer.part_mimetype fp ∈ Server.allowedTypes
       /\ (Multer.part_size fp <= 40 * 1024 * 1024)%N
       /\ Fs.disk w'
          = <[Fs.resolve finalPath := Fs.RegularFile (Multer.part_size fp)]>
              (Fs.disk w))
      \/ (exists m : string,
            r = Json 400 false (Message m)
            /\ (Fs.disk w' = Fs.disk w
                \/ Fs.disk w' = delete (Fs.resolve finalPath) (Fs.disk w)))
  end.
Proof.
  destruct part as [fp|]; [|done]. cbn zeta.
  set (file := UploadFile (Multer.part_filename fp) (Multer.part_mimetype fp)).
  unfold Server.upload_route, Multer.single, mbind, fs_bind, mret, fs_ret.
  cbn [Server.upload Multer.fileFilter Multer.destination Multer.getFilename
       Multer.fileSize].
  fold file. rewrite fileFilter_spec.
  unfold Fs.open, Fs.write, Fs.unlink, Fs.stat, Fs.bind, Fs.ret, Fs.log.
  cbn [Fs.disk Fs.trace default].
  set (finalPath := Path.join [Server.UPLOADS_DIR __dirname; filename rt file]).
  destruct (String.eqb (Multer.part_filename fp) ""); [by eauto|].
  destruct (String.eqb_spec (Multer.fieldname fp) "file") as [Hfield|_];
    cbn [negb]; [|by eauto].
  case_bool_decide as Htype; [|by eauto].
  destruct (Fs.has_nul finalPath); [by eauto|].
  destruct (Path.trailingSeparator finalPath) eqn:Htrail; [by eauto|].
  destruct (Fs.disk w !! removelast (Fs.resolve finalPath)) as [[?|]|];
    [by eauto| |by eauto].
  destruct (Multer.truncates at_boundary (Some (40 * 1024 * 1024)%N)
              (Multer.part_size fp)) eqn:Hcut.
  - right.
    destruct (Fs.disk w !! Fs.resolve finalPath) as [[?|]|];
      [| by eauto |];
      cbn [Fs.disk Fs.trace]; rewrite ?lookup_insert_eq;
      cbn [Fs.disk Fs.trace]; rewrite ?lookup_insert_eq, ?Htrail;
      cbn [Fs.disk Fs.trace fst snd]; rewrite !delete_insert_eq; by eauto.
  - assert (Multer.part_size fp <= 40 * 1024 * 1024)%N as Hsize.
    { unfold Multer.truncates in Hcut. apply orb_false_iff in Hcut as [Hlt _].
      by apply N.ltb_ge in Hlt. }
    destruct (Fs.disk w !! Fs.resolve finalPath) as [[?|]|];
      [| by eauto |];
      cbn [Fs.disk Fs.trace]; rewrite ?lookup_insert_eq;
      cbn [Fs.disk Fs.trace fst snd Multer.stored_filename];
      rewrite insert_insert_eq, N.add_0_l; by left.
Qed.





(** ** The start of the program *)

Lemma on_the_way_nil (here loc : list string) :
  on_the_way here [] loc <-> loc = here.
Proof.
  unfold on_the_way. rewrite app_nil_r. split.
  - intros [H1 H2]. by apply (anti_symm prefix).
  - by intros ->.
Qed.

Lemma on_the_way_cons (here : list string) (c : string)
    (below loc : list string) :
  on_the_way here (c :: below) loc
  <-> loc = here \/ on_the_way (here ++ [c]) below loc.
Proof.
  unfold on_the_way. rewrite <- (app_assoc here [c] below). split.
  - intros [[k ->] Hk%prefix_app_inv]. destruct k as [|c' k].
    + left. by rewrite app_nil_r.
    + right. pose proof (prefix_cons_inv_1 _ _ _ _ Hk) as ->.
      apply prefix_cons_inv_2 in Hk. split.
      * exists k. by rewrite <- app_assoc.
      * by apply prefix_app, prefix_cons.
  - intros [->|[H1 H2]].
    + split; [done | by apply prefix_app_r].
    + split; [|done]. etrans; [|exact H1]. by apply prefix_app_r.
Qed.

Lemma on_the_way_longer (here : list string) (c : string)
    (below loc : list string) :
  on_the_way (here ++ [c]) below loc -> loc <> here.
Proof.
  intros [H1 _] ->. by apply prefix_snoc_not in H1.
Qed.

(** What a recursive [mkdir] does: it fails exactly when a regular file is
    on the way, and otherwise adds a directory at each location on the way
    that was missing and nothing else. *)
Lemma mkdir_walk_spec (below : list string) :
  forall (d : gmap Fs.location Fs.node) (here : list string),
    match FsSync.mkdir_walk d here below with
    | inr d' =>
        (forall loc size, on_the_way here below loc ->
           d !! loc <> Some (Fs.RegularFile size))
        /\ (forall loc n, d !! loc = Some n -> d' !! loc = Some n)
        /\ (forall loc, d !! loc = None -> on_the_way here below loc ->
              d' !! loc = Some Fs.Directory)
        /\ (forall loc, d !! loc = None -> ~ on_the_way here below loc ->
              d' !! loc = None)
    | inl _ =>
        exists loc size,
          on_the_way here below loc /\ d !! loc = Some (Fs.RegularFile size)
    end.
Proof.
  induction below as [|c below IH]; intros d here; cbn [FsSync.mkdir_walk].
  - destruct (d !! here) as [[size|]|] eqn:Hhere.
    + exists here, size. by rewrite on_the_way_nil.
    + split; [|split; [|split]].
      * intros loc size ->%on_the_way_nil. congruence.
      * done.
      * intros loc Hloc ->%on_the_way_nil. congruence.
      * done.
    + split; [|split; [|split]].
      * intros loc size ->%on_the_way_nil. congruence.
      * intros loc n Hloc. rewrite lookup_insert_ne; [done|congruence].
      * intros loc _ ->%on_the_way_nil. apply lookup_insert_eq.
      * intros loc Hloc Hnot. rewrite lookup_insert_ne; [done|].
        intros <-. by apply Hnot, on_the_way_nil.
  - destruct (d !! here) as [[size|]|] eqn:Hhere.
    + exists here, size. split; [|done]. apply on_the_way_cons. by left.
    + specialize (IH d (here ++ [c])).
      destruct (FsSync.mkdir_walk d (here ++ [c]) below) as [e|d'].
      * destruct IH as (loc & size & Hway & Hloc). exists loc, size.
        split; [|done]. apply on_the_way_cons. by right.
      * destruct IH as (Hfree & Hkeep & Hadd & Hrest).
        split; [|split; [|split]].
        -- intros loc size [->|Hway]%on_the_way_cons; [congruence|eauto].
        -- done.
        -- intros loc Hloc [->|Hway]%on_the_way_cons; [congruence|eauto].
        -- intros loc Hloc Hnot. apply Hrest; [done|]. intros Hway.
           apply Hnot, on_the_way_cons. by right.
    + specialize (IH (<[here := Fs.Directory]> d) (here ++ [c])).
      destruct (FsSync.mkdir_walk _ (here ++ [c]) below) as [e|d'].
      * destruct IH as (loc & size & Hway & Hloc). exists loc, size.
        split; [apply on_the_way_cons; by right|].
        rewrite lookup_insert_ne in Hloc; [done|].
        intros <-. by apply on_the_way_longer in Hway.
      * destruct IH as (Hfree & Hkeep & Hadd & Hrest).
        split; [|split; [|split]].
        -- intros loc size [->|Hway]%on_the_way_cons; [congruence|].
           specialize (Hfree loc size Hway).
           rewrite lookup_insert_ne in Hfree; [done|].
           intros <-. by apply on_the_way_longer in Hway.
        -- intros loc n Hloc. apply Hkeep.
           rewrite lookup_insert_ne; [done|congruence].
        -- intros loc Hloc [->|Hway]%on_the_way_cons.
           ++ apply Hkeep, lookup_insert_eq.
           ++ apply Hadd; [|done]. rewrite lookup_insert_ne; [done|].
              intros <-. by apply on_the_way_longer in Hway.
        -- intros loc Hloc Hnot. apply Hrest.
           ++ rewrite lookup_insert_ne; [done|]. intros <-.
              apply Hnot, on_the_way_cons. by left.
           ++ intros Hway. apply Hnot, on_the_way_cons. by right.
Qed.

Lemma on_the_way_from_root (target loc : list string) :
  on_the_way [] target loc <-> loc `prefix_of` target.
Proof.
  unfold on_the_way. simpl. split; [by intros [_ ?]|].
  intros H. split; [apply prefix_nil | done].
Qed.

Section Start.

Variable __dirname : string.
Hypothesis Hdir : script_dir __dirname.

Lemma uploads_dir_no_trailing :
  Path.trailingSeparator (Server.UPLOADS_DIR __dirname) = false.
Proof using Hdir.
  destruct Hdir as [Habs _]. unfold Server.UPLOADS_DIR.
  assert (__dirname <> "") as Hne by (by intros ->).
  pose proof (storage_root_eq __dirname Hdir) as Hroot.
  unfold storage_root, Server.UPLOADS_DIR in Hroot.
  rewrite join2 in Hroot |- * by done.
  rewrite trailingSeparator_normalize.
  - by rewrite trailingSeparator_app.
  - by apply isAbsolute_app.
  - rewrite resolve_normalize in Hroot by (by apply isAbsolute_app).
    rewrite Hroot. by destruct (Fs.resolve __dirname).
Qed.

Lemma existsSync_uploads (d : gmap Fs.location Fs.node) :
  FsSync.existsSync d (Server.UPLOADS_DIR __dirname)
  = bool_decide (is_Some (d !! storage_root __dirname)).
Proof using Hdir.
  unfold FsSync.existsSync, Fs.stat.
  rewrite (uploads_dir_no_nul __dirname Hdir), uploads_dir_no_trailing.
  fold (storage_root __dirname).
  destruct (d !! storage_root __dirname) as [[size|]|]; symmetry;
    (apply bool_decide_eq_true_2 || apply bool_decide_eq_false_2);
    [by eexists | by eexists | by intros [? ?]].
Qed.

(** The start of [src/server.js] on any disk. *)
Lemma server_start_spec (d : gmap Fs.location Fs.node) :
  match Server.ensure_uploads_dir __dirname d with
  | inr d' =>
      (forall loc n, d !! loc = Some n -> d' !! loc = Some n)
      /\ (forall loc n, d' !! loc = Some n ->
            d !! loc = Some n
            \/ (n = Fs.Directory /\ loc `prefix_of` storage_root __dirname))
      /\ (is_Some (d !! storage_root __dirname) -> d' = d)
      /\ (d !! storage_root __dirname = None ->
          d' !! storage_root __dirname = Some Fs.Directory)
      /\ (d !! storage_root __dirname = None ->
          forall loc size, loc `prefix_of` storage_root __dirname ->
            d !! loc <> Some (Fs.RegularFile size))
  | inl _ =>
      d !! storage_root __dirname = None
      /\ exists loc size,
           loc `prefix_of` storage_root __dirname
           /\ d !! loc = Some (Fs.RegularFile size)
  end.
Proof using Hdir.
  unfold Server.ensure_uploads_dir, FsSync.mkdirSync_recursive.
  rewrite existsSync_uploads, (uploads_dir_no_nul __dirname Hdir).
  fold (storage_root __dirname).
  case_bool_decide as Hroot; cbn [negb].
  - repeat split; eauto; intros Hnone; destruct Hroot; congruence.
  - assert (d !! storage_root __dirname = None) as Hnone
      by (destruct (d !! storage_root __dirname) eqn:H; [by destruct Hroot|done]).
    pose proof (mkdir_walk_spec (storage_root __dirname) d []) as Hwalk.
    destruct (FsSync.mkdir_walk d [] (storage_root __dirname)) as [e|d'].
    + destruct Hwalk as (loc & size & Hway%on_the_way_from_root & Hloc).
      split; [done|]. by exists loc, size.
    + destruct Hwalk as (Hfree & Hkeep & Hadd & Hrest). repeat split.
      * done.
      * intros loc n Hloc. destruct (d !! loc) as [m|] eqn:Hold.
        { left. rewrite (Hkeep loc m Hold) in Hloc. congruence. }
        right. destruct (decide (loc `prefix_of` storage_root __dirname))
          as [Hpre|Hpre].
        -- rewrite (Hadd loc Hold) in Hloc by (by apply on_the_way_from_root).
           split; [congruence|done].
        -- rewrite (Hrest loc Hold) in Hloc; [done|].
           by rewrite on_the_way_from_root.
      * intros [n Hn]. congruence.
      * intros _. apply Hadd; [done|]. by apply on_the_way_from_root.
      * intros _ loc size Hpre. apply Hfree. by apply on_the_way_from_root.
Qed.

End Start.

(** X12.  The start of [src/server.js].  A storage root that is already
    there, as a directory or as anything else, is left alone.  A missing
    one is made together with the missing directories above it: the root
    is then a directory, everything that was on the disk is still there,
    the only additions are directories on the way to the root, and a
    second start changes nothing.  The start fails exactly when a regular
    file is on the way. *)
Theorem server_start (__dirname : string) (d : gmap Fs.location Fs.node) :
  script_dir __dirname ->
  (is_Some (d !! storage_root __dirname) ->
   Server.ensure_uploads_dir __dirname d = inr d)
  /\ (d !! storage_root __dirname = None ->
      (forall loc size, loc `prefix_of` storage_root __dirname ->
         d !! loc <> Some (Fs.RegularFile size)) ->
      exists d' : gmap Fs.location Fs.node,
        Server.ensure_uploads_dir __dirname d = inr d'
        /\ d' !! storage_root __dirname = Some Fs.Directory
        /\ d ⊆ d'
        /\ (forall loc n, d' !! loc = Some n ->
              d !! loc = Some n
              \/ (n = Fs.Directory /\ loc `prefix_of` storage_root __dirname))
        /\ Server.ensure_uploads_dir __dirname d' = inr d')
  /\ (d !! storage_root __dirname = None ->
      forall loc size, loc `prefix_of` storage_root __dirname ->
        d !! loc = Some (Fs.RegularFile size) ->
        exists e, Server.ensure_uploads_dir __dirname d = inl e).
Proof.
  intros Hdir.
  assert (forall d0 : gmap Fs.location Fs.node,
            is_Some (d0 !! storage_root __dirname) ->
            Server.ensure_uploads_dir __dirname d0 = inr d0) as Hkept.
  { intros d0 Hsome. unfold Server.ensure_uploads_dir.
    by rewrite existsSync_uploads, bool_decide_eq_true_2. }
  pose proof (server_start_spec __dirname Hdir d) as Hspec.
  split; [apply Hkept|]. split.
  - intros Hnone Hfree.
    destruct (Server.ensure_uploads_dir __dirname d) as [e|d'].
    { destruct Hspec as (_ & loc & size & Hpre & Hloc). by destruct (Hfree loc size). }
    destruct Hspec as (Hkeep & Hadd & _ & Hroot & _). exists d'.
    split; [done|]. split; [by apply Hroot|]. split.
    { apply map_subseteq_spec. intros loc n. apply Hkeep. }
    split; [done|]. apply Hkept. rewrite Hroot by done. by eexists.
  - intros Hnone loc size Hpre Hloc.
    destruct (Server.ensure_uploads_dir __dirname d) as [e|d']; [by eexists|].
    destruct Hspec as (_ & _ & _ & _ & Hfree). by destruct (Hfree Hnone loc size).
Qed.

Lemma server_start_witness :
  script_dir "/srv/files"
  /\ Fs.disk sample_world !! storage_root "/srv/files" = None
  /\ exists d' : gmap Fs.location Fs.node,
       Server.ensure_uploads_dir "/srv/files" (Fs.disk sample_world) = inr d'
       /\ d' !! storage_root "/srv/files" = Some Fs.Directory.
Proof.
  split; [by compute|]. split; [by vm_compute|].
  destruct (server_start "/srv/files" (Fs.disk sample_world)) as (_ & Hmake & _);
    [by compute|].
  destruct Hmake as (d' & Hstart & Hroot & _).
  - by vm_compute.
  - intros loc size [k Hk] Hloc.
    assert (storage_root "/srv/files" = ["srv"; "files"; "uploads"]) as Heq
      by by vm_compute.
    rewrite Heq in Hk.
    destruct loc as [|a [|b [|c [|? ?]]]]; simplify_eq/=; by vm_compute in Hloc.
  - by exists d'.
Defined.






(** ** The upload routes of the older variants *)

Lemma single_same_decision (at_boundary : bool) (o1 o2 : Multer.options)
    (rt : runtime) (fp : Multer.file_part) (w : Fs.world) :
  Multer.destination o1 = Multer.destination o2 ->
  Multer.getFilename o1 = Multer.getFilename o2 ->
  Multer.fileSize o1 = Multer.fileSize o2 ->
  Multer.fileFilter o1
    (UploadFile (Multer.part_filename fp) (Multer.part_mimetype fp))
  = Multer.fileFilter o2
      (UploadFile (Multer.part_filename fp) (Multer.part_mimetype fp)) ->
  Multer.single at_boundary o1 "file" rt (Some fp) w
  = Multer.single at_boundary o2 "file" rt (Some fp) w.
Proof.
  destruct o1, o2. cbn. intros -> -> -> Hfilter. unfold Multer.single. cbn.
  by rewrite Hfilter.
Qed.

Lemma part000_types_accepted_by_server (t : string) :
  t ∈ Part000.allowedTypes -> t ∈ Server.allowedTypes.
Proof.
  unfold Part000.allowedTypes, Server.allowedTypes. intros Ht.
  repeat (apply elem_of_cons in Ht as [->|Ht]; [set_solver|]).
  by apply elem_of_nil in Ht.
Qed.

(** X15.  [src/unnamed/part_000] against [src/server.js] on the same
    request, for a part whose type is on the shorter list of part_000 or on
    neither list: both leave the same world, and the answers are the same
    except that an error of the middleware, which [src/server.js] answers
    with 400 and a message, is left to Express by part_000. *)
Theorem part000_upload_vs_server (__dirname : string) (at_boundary : bool)
    (rt : runtime) (part : option Multer.file_part) (w : Fs.world) :
  (forall fp, part = Some fp ->
     Multer.part_mimetype fp ∈ Part000.allowedTypes
     \/ Multer.part_mimetype fp ∉ Server.allowedTypes) ->
  (Part000.upload_route __dirname at_boundary rt part w).2
  = (Server.upload_route __dirname at_boundary rt part w).2
  /\ match (Part000.upload_route __dirname at_boundary rt part w).1 with
     | Unhandled _ =>
         exists m : string,
           (Server.upload_route __dirname at_boundary rt part w).1
           = Json 400 false (Message m)
     | r => (Server.upload_route __dirname at_boundary rt part w).1 = r
     end.
Proof.
  intros Htype. destruct part as [fp|]; [|done].
  destruct (Htype fp eq_refl) as [Hin|Hout].
  - unfold Part000.upload_route, Server.upload_route, mbind, fs_bind, Fs.bind.
    rewrite (single_same_decision at_boundary (Part000.upload __dirname)
               (Server.upload __dirname)); try done.
    + destruct (Multer.single _ _ _ _ _ w) as [[[file|]|e] w']; cbn; eauto.
    + cbn [Part000.upload Server.upload Multer.fileFilter].
      rewrite part000_fileFilter, fileFilter_spec.
      rewrite !bool_decide_eq_true_2;
        [done | by apply part000_types_accepted_by_server | done].
  - assert (Multer.part_mimetype fp ∉ Part000.allowedTypes) as Hout0
      by (intros Hin; by apply Hout, part000_types_accepted_by_server).
    unfold Part000.upload_route, Server.upload_route, Multer.single,
      mbind, fs_bind, Fs.bind, mret, fs_ret, Fs.ret.
    cbn [Part000.upload Server.upload Multer.fileFilter].
    rewrite part000_fileFilter, fileFilter_spec.
    rewrite !bool_decide_eq_false_2 by done.
    destruct (String.eqb (Multer.part_filename fp) ""); [done|].
    destruct (negb (String.eqb (Multer.fieldname fp) "file")); cbn; eauto.
Qed.

Lemma part000_upload_vs_server_witness :
  (forall fp,
     Some (Multer.FilePart "file" "index.html" "text/html" 120) = Some fp ->
     Multer.part_mimetype fp ∈ Part000.allowedTypes
     \/ Multer.part_mimetype fp ∉ Server.allowedTypes)
  /\ (Part000.upload_route "/app" false sample_runtime
        (Some (Multer.FilePart "file" "index.html" "text/html" 120))
        sample_world).2
     = (Server.upload_route "/app" false sample_runtime
          (Some (Multer.FilePart "file" "index.html" "text/html" 120))
          sample_world).2.
Proof.
  assert (forall fp,
            Some (Multer.FilePart "file" "index.html" "text/html" 120) = Some fp ->
            Multer.part_mimetype fp ∈ Part000.allowedTypes
            \/ Multer.part_mimetype fp ∉ Server.allowedTypes) as Htype.
  { intros fp [= <-]. right. cbn. unfold Server.allowedTypes. intros Hin.
    repeat (apply elem_of_cons in Hin as [Heq|Hin]; [discriminate Heq|]).
    by apply elem_of_nil in Hin. }
  split; [exact Htype|].
  by apply (part000_upload_vs_server "/app" false sample_runtime
              (Some (Multer.FilePart "file" "index.html" "text/html" 120))
              sample_world).
Defined.


